(** * Signal handling of the Magma daemon: [engine/context/signal.c]

    A shallow embedding of the six functions of [signal.c]
    ([signal_segfault], [signal_shutdown], [signal_status], [signal_refresh],
    [signal_thread_start], [signal_start]) and the properties of the
    lifecycle coordinator they implement.

    The C functions are sequences of calls into libc and into other parts of
    the daemon.  Each is embedded as a program over those calls: a tree whose
    nodes are the calls the function makes, in the order it makes them, and
    whose branches are the C control flow ([if], the short-circuit [||]).
    Two semantics give the programs meaning:
    - [run], a sequential interpreter over a [world] (disposition table, log,
      shutdown status, the reload mutex, scripted results of the calls that
      can fail), with the kernel's signal delivery [deliver] on top of it
      (one-shot dispositions, the signals blocked while a handler runs);
    - [tstep]/[sstep], an interleaving semantics of several handler
      invocations running at the same time against the one reload mutex. *)

From stdpp Require Import gmap list strings.
From Stdlib Require Import ZArith.

Local Open Scope Z_scope.

(** ** Constants of <signal.h> (Linux, x86-64) *)

Definition SIGHUP  : Z := 1.
Definition SIGINT  : Z := 2.
Definition SIGQUIT : Z := 3.
Definition SIGABRT : Z := 6.
Definition SIGBUS  : Z := 7.
Definition SIGFPE  : Z := 8.
Definition SIGKILL : Z := 9.
Definition SIGSEGV : Z := 11.
Definition SIGPIPE : Z := 13.
Definition SIGALRM : Z := 14.
Definition SIGTERM : Z := 15.
Definition SIGSTOP : Z := 19.
Definition SIGSYS  : Z := 31.

Definition SA_RESETHAND : Z := 0x80000000.

(** The signal classes of the coordinator. *)
Definition termination_signals : list Z := [SIGINT; SIGQUIT; SIGTERM].
Definition fatal_signals : list Z := [SIGSEGV; SIGFPE; SIGBUS; SIGSYS; SIGABRT].

(** ** Data model *)

(** The four handler entry points of [signal.c]; a function pointer stored in
    [sa_handler] is one of these tags. *)
Inductive handler_fn : Type :=
| fn_signal_segfault
| fn_signal_shutdown
| fn_signal_status
| fn_signal_refresh.

Inductive sighandler : Type :=
| SIG_DFL
| SIG_IGN
| Handler (f : handler_fn).

(** [struct sigaction]: the fields the code sets. The mask is the list of the
    signals in it. *)
Record struct_sigaction : Type := mk_sigaction {
  sa_handler : sighandler;
  sa_flags : Z;
  sa_mask : list Z
}.

(** [mm_wipe(&s, sizeof(struct sigaction))] zeroes the structure: a null
    handler is [SIG_DFL], no flag is set, and the mask has no member. *)
Definition mm_wipe : struct_sigaction :=
  {| sa_handler := SIG_DFL; sa_flags := 0; sa_mask := [] |}.

Definition set_sa_handler (h : sighandler) (s : struct_sigaction) : struct_sigaction :=
  {| sa_handler := h; sa_flags := sa_flags s; sa_mask := sa_mask s |}.

Definition set_sa_flags (f : Z) (s : struct_sigaction) : struct_sigaction :=
  {| sa_handler := sa_handler s; sa_flags := f; sa_mask := sa_mask s |}.

Definition set_sa_mask (m : list Z) (s : struct_sigaction) : struct_sigaction :=
  {| sa_handler := sa_handler s; sa_flags := sa_flags s; sa_mask := m |}.

(** Log lines. [ll_signal] is the signal whose [signal_name] is formatted
    into the line, when the format has one. *)
Inductive log_level : Type :=
| M_LOG_INFO
| M_LOG_ERROR
| M_LOG_CRITICAL.

Record log_line : Type := mk_log_line {
  ll_level : log_level;
  ll_stack_trace : bool;
  ll_format : string;
  ll_signal : option Z
}.

(** The shared Shutdown Status. *)
Inductive shutdown_status : Type :=
| Running
| Draining
| Stopped.

(** [struct timespec]. *)
Record timespec : Type := mk_timespec {
  tv_sec : Z;
  tv_nsec : Z
}.

(** Entry points handed to [thread_launch]. *)
Inductive thread_fn : Type :=
| status_signal.

(** A [pthread_t] handle: the position of the thread in the thread table,
    counted from one; zero is the wiped handle. *)
Definition pthread_t : Type := nat.

Inductive mutex_id : Type :=
| sig_hup_mutex.

(** ** The calls made by [signal.c] *)

(** One constructor per libc or daemon function called, indexed by the type
    of what the call returns. [abort] returns nothing, ever. *)
Inductive op : Type -> Type :=
| log_emit (l : log_line) : op unit
| sigemptyset : op Z
| sigaction (signum : Z) (act : struct_sigaction) : op Z
| abort : op Empty_set
| thread_launch (entry : thread_fn) : op pthread_t
| nanosleep (ts : timespec) : op unit
| queue_signal : op unit
| net_trigger (queue : bool) : op unit
| thread_join (t : pthread_t) : op unit
| status : op bool
| mutex_lock (m : mutex_id) : op unit
| mutex_unlock (m : mutex_id) : op unit
| http_content_refresh : op bool.

(** Programs over these calls. *)
Inductive prog (R : Type) : Type :=
| Ret (r : R)
| Vis {X : Type} (o : op X) (k : X -> prog R).

Arguments Ret {R} r.
Arguments Vis {R X} o k.

Fixpoint bind {A B : Type} (p : prog A) (f : A -> prog B) : prog B :=
  match p with
  | Ret a => f a
  | Vis o k => Vis o (fun x => bind (k x) f)
  end.

Definition call {X : Type} (o : op X) : prog X := Vis o Ret.

Declare Scope prog_scope.
Delimit Scope prog_scope with prog.
Notation "'let*' x ':=' p 'in' q" := (bind p (fun x => q))
  (at level 10, x name, p at level 100, q at level 200) : prog_scope.
Notation "'let*' ' x ':=' p 'in' q" := (bind p (fun x => q))
  (at level 10, x pattern, p at level 100, q at level 200) : prog_scope.
Notation "p ;; q" := (bind p (fun _ => q))
  (at level 100, q at level 200, right associativity) : prog_scope.
Local Open Scope prog_scope.

(** C's [a || b]: [b] is evaluated only when [a] is false; [nonzero] is the
    truth value of an [int]. *)
Definition nonzero (p : prog Z) : prog bool :=
  let* r := p in Ret (negb (r =? 0)).

Definition c_or (a b : prog bool) : prog bool :=
  let* x := a in if x then Ret true else b.

Infix "|||" := c_or (at level 50, left associativity).

(** The logging macros: a severity, whether a stack trace is requested, the
    format and the formatted signal. *)
Definition log_options (level : log_level) (trace : bool) (fmt : string)
    (sig : option Z) : prog unit :=
  call (log_emit (mk_log_line level trace fmt sig)).

Definition log_critical (fmt : string) (sig : option Z) : prog unit :=
  log_options M_LOG_CRITICAL false fmt sig.

Definition log_error (fmt : string) : prog unit :=
  log_options M_LOG_ERROR false fmt None.

Definition log_info (fmt : string) (sig : option Z) : prog unit :=
  log_options M_LOG_INFO false fmt sig.

(** ** The functions of signal.c *)

Definition msg_segfault : string :=
  "Memory corruption has been detected. Attempting to print a back trace and exit. { signal = %s }".
Definition msg_shutdown : string :=
  "Signal received. The Magma daemon is attempting a graceful exit. { signal = %s }".
Definition msg_status : string :=
  "This worker thread was signaled but the status function doesn't indicate a shutdown is in progress. { signal = %s }".
Definition msg_refresh_error : string :=
  "An error occurred while trying to refresh disk based content.".
Definition msg_refresh_ok : string :=
  "Disk content refreshed.".
Definition msg_setup_thread_status : string :=
  "Could not setup the thread status signal handler.".
Definition msg_setup_shutdown : string :=
  "Could not setup the shutdown signal handler.".
Definition msg_setup_ignore : string :=
  "Could not setup the ignore signal handler".

(** [sigemptyset(&s.sa_mask)]: the call, and the structure after it. The
    mask is emptied when the call succeeds and left as it was otherwise. *)
Definition sigemptyset_mask (s : struct_sigaction) : prog (Z * struct_sigaction) :=
  let* r := call sigemptyset in
  Ret (r, if r =? 0 then set_sa_mask [] s else s).

(** [void signal_segfault(int signal)]: the handler of SIGSEGV, SIGFPE,
    SIGBUS, SIGSYS and SIGABRT. It logs, puts SIGABRT back to its default
    disposition and calls [abort]. The results of [sigemptyset] and
    [sigaction] are not looked at. *)
Definition signal_segfault (signal : Z) : prog unit :=
  log_options M_LOG_CRITICAL true msg_segfault (Some signal) ;;
  let clear := mm_wipe in
  let* '(_, clear) := sigemptyset_mask clear in
  let clear := set_sa_handler SIG_DFL clear in
  let clear := set_sa_flags 0 clear in
  call (sigaction SIGABRT clear) ;;
  let* e := call abort in
  match e : Empty_set with end.

(** [void signal_shutdown(int signal)]: the handler of SIGINT, SIGQUIT and
    SIGTERM. [split] and [single] are its two sleep intervals. The local
    handle [status_thread] is wiped and then written by [thread_launch],
    whose result is not looked at: the handle bound here is what the
    variable holds after the call. *)
Definition split : timespec := {| tv_sec := 0; tv_nsec := 100000000 |}.
Definition single : timespec := {| tv_sec := 1; tv_nsec := 0 |}.

Definition signal_shutdown (signal : Z) : prog unit :=
  log_critical msg_shutdown (Some signal) ;;
  let* status_thread := call (thread_launch status_signal) in
  call (nanosleep split) ;;
  call queue_signal ;;
  call (nanosleep single) ;;
  call (nanosleep single) ;;
  call (nanosleep single) ;;
  call (net_trigger true) ;;
  call queue_signal ;;
  call (thread_join status_thread) ;;
  Ret tt.

(** [void signal_status(int signal)]: the per-thread handler of SIGALRM. *)
Definition signal_status (signal : Z) : prog unit :=
  let* b := call status in
  (if b then log_info msg_status (Some signal) else Ret tt) ;;
  Ret tt.

(** [void signal_refresh(int signal)]: the handler of SIGHUP. *)
Definition signal_refresh (signal : Z) : prog unit :=
  call (mutex_lock sig_hup_mutex) ;;
  let* ok := call http_content_refresh in
  (if negb ok then log_error msg_refresh_error
   else log_info msg_refresh_ok None) ;;
  call (mutex_unlock sig_hup_mutex) ;;
  Ret tt.

(** [bool_t signal_thread_start(void)]: binds [signal_status] to SIGALRM. *)
Definition signal_thread_start : prog bool :=
  let status := mm_wipe in
  let status := set_sa_handler (Handler fn_signal_status) status in
  let status := set_sa_flags 0 status in
  let* '(r, status) := sigemptyset_mask status in
  let* failed :=
    Ret (negb (r =? 0)) ||| nonzero (call (sigaction SIGALRM status)) in
  if failed then
    log_info msg_setup_thread_status None ;; Ret false
  else Ret true.

(** [bool_t signal_start(void)]: the four registration groups, each
    [if (sigemptyset(..) || sigaction(..) || ...) { log_info(..); return false; }]. *)
Definition signal_start : prog bool :=
  let normal := mm_wipe in
  let normal := set_sa_handler (Handler fn_signal_shutdown) normal in
  let normal := set_sa_flags 0 normal in
  let* '(r, normal) := sigemptyset_mask normal in
  let* failed :=
    Ret (negb (r =? 0)) ||| nonzero (call (sigaction SIGINT normal))
      ||| nonzero (call (sigaction SIGQUIT normal))
      ||| nonzero (call (sigaction SIGTERM normal)) in
  if failed then
    log_info msg_setup_shutdown None ;; Ret false
  else
  let ignored := mm_wipe in
  let ignored := set_sa_handler SIG_IGN ignored in
  let ignored := set_sa_flags 0 ignored in
  let* '(r, ignored) := sigemptyset_mask ignored in
  let* failed :=
    Ret (negb (r =? 0)) ||| nonzero (call (sigaction SIGPIPE ignored)) in
  if failed then
    log_info msg_setup_ignore None ;; Ret false
  else
  let segfault := mm_wipe in
  let segfault := set_sa_handler (Handler fn_signal_segfault) segfault in
  let segfault := set_sa_flags SA_RESETHAND segfault in
  let* '(r, segfault) := sigemptyset_mask segfault in
  let* failed :=
    Ret (negb (r =? 0)) ||| nonzero (call (sigaction SIGSEGV segfault))
      ||| nonzero (call (sigaction SIGFPE segfault))
      ||| nonzero (call (sigaction SIGBUS segfault))
      ||| nonzero (call (sigaction SIGSYS segfault))
      ||| nonzero (call (sigaction SIGABRT segfault)) in
  if failed then
    log_info msg_setup_shutdown None ;; Ret false
  else
  let hup := mm_wipe in
  let hup := set_sa_handler (Handler fn_signal_refresh) hup in
  let hup := set_sa_flags 0 hup in
  let* '(r, hup) := sigemptyset_mask hup in
  let* failed :=
    Ret (negb (r =? 0)) ||| nonzero (call (sigaction SIGHUP hup)) in
  if failed then
    log_info msg_setup_thread_status None ;; Ret false
  else Ret true.

(** The function a handler tag stands for. *)
Definition handler_body (f : handler_fn) : Z -> prog unit :=
  match f with
  | fn_signal_segfault => signal_segfault
  | fn_signal_shutdown => signal_shutdown
  | fn_signal_status => signal_status
  | fn_signal_refresh => signal_refresh
  end.

(** ** The world the calls act on *)

(** What is observed of a run: every call made, with its arguments and
    result, in order; the handler invocations the kernel starts; the
    process being killed by a signal's default action; a signal raised
    while it is blocked, which stays pending. *)
Inductive event : Type :=
| EvEnter (f : handler_fn) (signum : Z)
| EvKilled (signum : Z)
| EvPending (signum : Z)
| EvLog (l : log_line)
| EvSigemptyset (ret : Z)
| EvSigaction (signum : Z) (act : struct_sigaction) (ret : Z)
| EvAbort
| EvThreadLaunch (entry : thread_fn) (t : pthread_t)
| EvNanosleep (ts : timespec)
| EvQueueSignal
| EvNetTrigger (queue : bool)
| EvThreadJoin (t : pthread_t)
| EvStatus (ret : bool)
| EvMutexLock (m : mutex_id)
| EvMutexUnlock (m : mutex_id)
| EvRefresh (ret : bool).

Inductive thread_state : Type :=
| ThPending
| ThFinished
| ThJoined.

(** - [w_trace]: the events so far, oldest first;
    - [w_log]: the lines written to the log, oldest first;
    - [w_disp]: the Signal Disposition Table; a signal without an entry has
      its default disposition;
    - [w_status]: the Shutdown Status;
    - [w_mutex]: whether [sig_hup_mutex] is held;
    - [w_threads]: the threads launched, with their entry points;
    - [w_rets]: the return codes of the coming [sigemptyset] and [sigaction]
      calls, one per call (a test double); a call past the end succeeds;
    - [w_refresh]: the results of the coming [http_content_refresh] calls;
      a call past the end succeeds;
    - [w_sched]: for each coming call at which the scheduler can switch
      ([thread_launch], [nanosleep], [queue_signal], [net_trigger],
      [thread_join]), whether the launched threads that have not run yet
      get to run during the call. *)
Record world : Type := mk_world {
  w_trace : list event;
  w_log : list log_line;
  w_disp : gmap Z struct_sigaction;
  w_status : shutdown_status;
  w_mutex : bool;
  w_threads : list (thread_fn * thread_state);
  w_rets : list Z;
  w_refresh : list bool;
  w_sched : list bool
}.

Definition set_trace (t : list event) (w : world) : world :=
  mk_world t (w_log w) (w_disp w) (w_status w) (w_mutex w) (w_threads w)
    (w_rets w) (w_refresh w) (w_sched w).
Definition set_log (l : list log_line) (w : world) : world :=
  mk_world (w_trace w) l (w_disp w) (w_status w) (w_mutex w) (w_threads w)
    (w_rets w) (w_refresh w) (w_sched w).
Definition set_disp (d : gmap Z struct_sigaction) (w : world) : world :=
  mk_world (w_trace w) (w_log w) d (w_status w) (w_mutex w) (w_threads w)
    (w_rets w) (w_refresh w) (w_sched w).
Definition set_status (s : shutdown_status) (w : world) : world :=
  mk_world (w_trace w) (w_log w) (w_disp w) s (w_mutex w) (w_threads w)
    (w_rets w) (w_refresh w) (w_sched w).
Definition set_mutex (b : bool) (w : world) : world :=
  mk_world (w_trace w) (w_log w) (w_disp w) (w_status w) b (w_threads w)
    (w_rets w) (w_refresh w) (w_sched w).
Definition set_threads (t : list (thread_fn * thread_state)) (w : world) : world :=
  mk_world (w_trace w) (w_log w) (w_disp w) (w_status w) (w_mutex w) t
    (w_rets w) (w_refresh w) (w_sched w).
Definition set_rets (r : list Z) (w : world) : world :=
  mk_world (w_trace w) (w_log w) (w_disp w) (w_status w) (w_mutex w)
    (w_threads w) r (w_refresh w) (w_sched w).
Definition set_refresh (r : list bool) (w : world) : world :=
  mk_world (w_trace w) (w_log w) (w_disp w) (w_status w) (w_mutex w)
    (w_threads w) (w_rets w) r (w_sched w).
Definition set_sched (s : list bool) (w : world) : world :=
  mk_world (w_trace w) (w_log w) (w_disp w) (w_status w) (w_mutex w)
    (w_threads w) (w_rets w) (w_refresh w) s.

Definition emit (e : event) (w : world) : world :=
  set_trace (w_trace w ++ [e]) w.

(** A process at start: nothing installed, status [Running], mutex free. *)
Definition world0 : world :=
  mk_world [] [] ∅ Running false [] [] [] [].

(** How a run ends. *)
Inductive outcome (R : Type) : Type :=
| Returned (r : R) (w : world)
| Terminated (signum : Z) (w : world)
| Blocked (w : world)
| OutOfFuel.

Arguments Returned {R} r w.
Arguments Terminated {R} signum w.
Arguments Blocked {R} w.
Arguments OutOfFuel {R}.

(** How many handler invocations the kernel has started in a trace, and
    the signals they were started for. *)
Fixpoint handler_entries (evs : list event) : nat :=
  match evs with
  | [] => O
  | EvEnter _ _ :: evs' => S (handler_entries evs')
  | _ :: evs' => handler_entries evs'
  end.

Definition entered (evs : list event) : list Z :=
  omap (λ e, match e with EvEnter _ s => Some s | _ => None end) evs.

(** How a signal comes to be raised by the running thread:
    - [Raise]: by [raise] or [kill]; a blocked signal stays pending;
    - [Fault]: by the instruction being executed (an invalid memory
      access, say); such a signal cannot be held back, and when it is
      blocked or ignored the Linux kernel puts it back to the default
      disposition and delivers it;
    - [Unblocked]: by [raise], after the signal has been taken out of the
      blocked signals, as [abort] does for SIGABRT. *)
Inductive raise_kind : Type :=
| Raise
| Fault
| Unblocked.

(** What goes wrong around the handlers in a run, next to the return codes
    the world scripts. Both are given by the number of handler invocations
    started so far, so that one invocation can differ from the next:
    - [f_raise k]: the signal raised, if any, and how, while a line with a
      stack trace is being logged (a crash report that crashes);
    - [f_launch k]: whether [thread_launch] fails. *)
Record faults : Type := mk_faults {
  f_raise : nat -> option (raise_kind * Z);
  f_launch : nat -> bool
}.

(** Every crash report raises [g]. *)
Definition raising (how : raise_kind) (g : Z) : faults :=
  {| f_raise := fun _ => Some (how, g); f_launch := fun _ => false |}.

(** No thread can be launched. *)
Definition no_threads : faults :=
  {| f_raise := fun _ => None; f_launch := fun _ => true |}.

(** Raising a signal from inside a program. *)
Definition raiser : Type := raise_kind -> Z -> world -> outcome unit.

(** ** What the calls do *)

(** Modelled from the spec: [status()] is defined outside [signal.c]. It is
    the "are we shutting down" predicate, [status_is_running() -> bool]:
    true exactly when the Shutdown Status is [Running]. *)
Definition status_running (w : world) : bool :=
  match w_status w with
  | Running => true
  | _ => false
  end.

(** Modelled from the spec: [status_signal], the entry point of the helper
    thread, is defined outside [signal.c]. Its sole job is the status
    transition: it publishes [Draining]. *)
Definition thread_body (f : thread_fn) (w : world) : world :=
  match f with
  | status_signal => set_status Draining w
  end.

(** The launched threads that have not run yet run to completion. *)
Definition run_pending (w : world) : world :=
  let w' :=
    foldl (fun acc '(f, st) =>
             match st with
             | ThPending => thread_body f acc
             | _ => acc
             end) w (w_threads w) in
  set_threads
    (map (fun '(f, st) =>
            (f, match st with ThPending => ThFinished | _ => st end))
         (w_threads w)) w'.

(** [thread_join] waits for the thread to finish: if it has not run yet, it
    runs now. Joining the wiped handle, or a handle that names no thread,
    does nothing: [signal_shutdown] wipes its handle so that the join is
    harmless when no thread was launched ("Clear the thread structure or
    we'll get a segfault when we attempt the thread join operation"). *)
Definition join_thread (t : pthread_t) (w : world) : world :=
  match t with
  | O => w
  | S i =>
    match w_threads w !! i with
    | Some (f, ThPending) =>
      set_threads (<[i := (f, ThJoined)]> (w_threads w)) (thread_body f w)
    | Some (f, ThFinished) =>
      set_threads (<[i := (f, ThJoined)]> (w_threads w)) w
    | _ => w
    end
  end.

Definition pop_ret (w : world) : Z * world :=
  match w_rets w with
  | [] => (0, w)
  | r :: rs => (r, set_rets rs w)
  end.

Definition pop_refresh (w : world) : bool * world :=
  match w_refresh w with
  | [] => (true, w)
  | b :: bs => (b, set_refresh bs w)
  end.

Definition pop_sched (w : world) : bool * world :=
  match w_sched w with
  | [] => (false, w)
  | b :: bs => (b, set_sched bs w)
  end.

(** [sigaction] refuses a signal number out of range, [SIGKILL] and
    [SIGSTOP]. *)
Definition valid_signum (s : Z) : bool :=
  (1 <=? s) && (s <=? 64) && negb (s =? SIGKILL) && negb (s =? SIGSTOP).

(** The default action of a signal kills the process, except for the
    signals that are ignored, stop the process or continue it by default
    (SIGCHLD, SIGCONT, SIGSTOP, SIGTSTP, SIGTTIN, SIGTTOU, SIGURG,
    SIGWINCH). *)
Definition default_kills (s : Z) : bool :=
  negb (existsb (Z.eqb s) [17; 18; 19; 20; 21; 22; 23; 28]).

Definition default_action (signum : Z) (w : world) : outcome unit :=
  if default_kills signum then Terminated signum (emit (EvKilled signum) w)
  else Returned tt w.

(** A log call writes its line. Producing a line with a stack trace can
    itself raise a signal (a crash inside the logging path), as [fault]
    says: the signal is raised first, and the line is written if the
    process survives it. *)
Definition write_log (l : log_line) (w : world) : world :=
  set_log (w_log w ++ [l]) (emit (EvLog l) w).

Definition fault_signal (fault : option faults) (l : log_line) (w : world)
    : option (raise_kind * Z) :=
  match fault with
  | Some fs =>
    if ll_stack_trace l then f_raise fs (handler_entries (w_trace w))
    else None
  | None => None
  end.

Definition sem_log (fault : option faults) (raise : raiser)
    (l : log_line) (w : world) : outcome unit :=
  match fault_signal fault l w with
  | None => Returned tt (write_log l w)
  | Some (how, g) =>
    match raise how g w with
    | Returned _ w1 => Returned tt (write_log l w1)
    | o => o
    end
  end.

Definition sem_sigemptyset (w : world) : outcome Z :=
  let '(r, w1) := pop_ret w in
  Returned r (emit (EvSigemptyset r) w1).

Definition sem_sigaction (signum : Z) (act : struct_sigaction) (w : world)
    : outcome Z :=
  if valid_signum signum then
    let '(r, w1) := pop_ret w in
    let w2 := if r =? 0 then set_disp (<[signum := act]> (w_disp w1)) w1
              else w1 in
    Returned r (emit (EvSigaction signum act r) w2)
  else Returned (-1) (emit (EvSigaction signum act (-1)) w).

(** [abort] unblocks SIGABRT and raises it; should a handler for it
    return, or the signal be ignored, the process is killed all the
    same. *)
Definition sem_abort (raise : raiser) (w : world) : outcome Empty_set :=
  match raise Unblocked SIGABRT (emit EvAbort w) with
  | Returned _ w1 => Terminated SIGABRT (emit (EvKilled SIGABRT) w1)
  | Terminated s w1 => Terminated s w1
  | Blocked w1 => Blocked w1
  | OutOfFuel => OutOfFuel
  end.

(** At a call where the scheduler can switch, the launched threads that
    have not run yet may run. *)
Definition sched_point (w : world) : world :=
  let '(b, w1) := pop_sched w in
  if b then run_pending w1 else w1.

(** [thread_launch], defined outside [signal.c], starts the thread and
    gives its handle; the thread runs at once, during a later call, or at
    the latest when it is joined. When the launch fails no thread is
    started and the caller's handle is not written: it stays what
    [mm_wipe] made it, zero. *)
Definition launch_fails (fault : option faults) (w : world) : bool :=
  match fault with
  | Some fs => f_launch fs (handler_entries (w_trace w))
  | None => false
  end.

Definition sem_thread_launch (fault : option faults) (entry : thread_fn)
    (w : world) : outcome pthread_t :=
  if launch_fails fault w then Returned O (emit (EvThreadLaunch entry O) w)
  else
    let t := S (length (w_threads w)) in
    Returned t
      (emit (EvThreadLaunch entry t)
         (sched_point (set_threads (w_threads w ++ [(entry, ThPending)]) w))).

Definition sem_nanosleep (ts : timespec) (w : world) : outcome unit :=
  Returned tt (emit (EvNanosleep ts) (sched_point w)).

Definition sem_mutex_lock (m : mutex_id) (w : world) : outcome unit :=
  if w_mutex w then Blocked w
  else Returned tt (emit (EvMutexLock m) (set_mutex true w)).

Definition sem_refresh (w : world) : outcome bool :=
  let '(b, w1) := pop_refresh w in
  Returned b (emit (EvRefresh b) w1).

Definition sem (fault : option faults) (raise : raiser)
    {X : Type} (o : op X) (w : world) : outcome X :=
  match o in op X return outcome X with
  | log_emit l => sem_log fault raise l w
  | sigemptyset => sem_sigemptyset w
  | sigaction signum act => sem_sigaction signum act w
  | abort => sem_abort raise w
  | thread_launch entry => sem_thread_launch fault entry w
  | nanosleep ts => sem_nanosleep ts w
  | queue_signal => Returned tt (emit EvQueueSignal (sched_point w))
  | net_trigger queue => Returned tt (emit (EvNetTrigger queue) (sched_point w))
  | thread_join t =>
    Returned tt (emit (EvThreadJoin t) (join_thread t (sched_point w)))
  | status => Returned (status_running w) (emit (EvStatus (status_running w)) w)
  | mutex_lock m => sem_mutex_lock m w
  | mutex_unlock m => Returned tt (emit (EvMutexUnlock m) (set_mutex false w))
  | http_content_refresh => sem_refresh w
  end.

(** The sequential interpreter: the calls of a program one after the
    other, each on the world the previous one left. [raise] is what raising
    a signal from inside the program does, [fault] what goes wrong in the
    run ([None]: nothing does). *)
Fixpoint run (fault : option faults) (raise : raiser)
    {R : Type} (p : prog R) (w : world) : outcome R :=
  match p with
  | Ret r => Returned r w
  | Vis o k =>
    match sem fault raise o w with
    | Returned x w' => run fault raise (k x) w'
    | Terminated s w' => Terminated s w'
    | Blocked w' => Blocked w'
    | OutOfFuel => OutOfFuel
    end
  end.

Definition has_resethand (act : struct_sigaction) : bool :=
  negb (Z.land (sa_flags act) SA_RESETHAND =? 0).

Definition blocked (mask : list Z) (signum : Z) : bool :=
  existsb (Z.eqb signum) mask.

(** The signal is raised while it is blocked and stays pending. *)
Definition held_back (mask : list Z) (how : raise_kind) (signum : Z) : bool :=
  match how with
  | Raise => blocked mask signum
  | _ => false
  end.

(** The signal comes from a fault while it is blocked or ignored: the
    kernel forces the default disposition. *)
Definition forced (mask : list Z) (how : raise_kind) (signum : Z)
    (w : world) : bool :=
  match how with
  | Fault =>
    blocked mask signum ||
    match w_disp w !! signum with
    | Some act =>
      match sa_handler act with
      | SIG_IGN => true
      | _ => false
      end
    | None => false
    end
  | _ => false
  end.

Definition set_default (signum : Z) (w : world) : world :=
  match w_disp w !! signum with
  | Some act =>
    set_disp (<[signum := set_sa_handler SIG_DFL act]> (w_disp w)) w
  | None => w
  end.

(** A signal raised by the thread whose blocked signals are [mask]. A
    blocked signal stays pending, unless it comes from a fault.
    Otherwise it is delivered, by the table: the default action, nothing
    for an ignored signal, or the handler. A one-shot disposition is put
    back to the default before the handler starts, and while the handler
    runs the signal itself and those of [sa_mask] are blocked as well
    (none of the registrations sets SA_NODEFER). [fuel] bounds how deep
    handlers may nest (a handler that raises a signal whose handler
    raises ...).

    A pending signal is delivered when the handler that blocks it returns.
    Of the handlers of [signal.c] only [signal_segfault] raises a signal,
    and it does not return, so that no handler returns with a signal
    pending; the delivery at the return is left out. *)
Fixpoint deliver_in (fault : option faults) (fuel : nat) (mask : list Z)
    (how : raise_kind) (signum : Z) (w : world) : outcome unit :=
  if held_back mask how signum
  then Returned tt (emit (EvPending signum) w)
  else if forced mask how signum w
  then default_action signum (set_default signum w)
  else
    match w_disp w !! signum with
    | None => default_action signum w
    | Some act =>
      match sa_handler act with
      | SIG_DFL => default_action signum w
      | SIG_IGN => Returned tt w
      | Handler f =>
        match fuel with
        | O => OutOfFuel
        | S fuel' =>
          let w1 :=
            if has_resethand act
            then set_disp (<[signum := set_sa_handler SIG_DFL act]> (w_disp w)) w
            else w in
          run fault (deliver_in fault fuel' (signum :: sa_mask act ++ mask))
            (handler_body f signum) (emit (EvEnter f signum) w1)
        end
      end
    end.

(** Delivery of a signal to a thread that blocks none. *)
Definition deliver (fault : option faults) (fuel : nat) (signum : Z)
    (w : world) : outcome unit :=
  deliver_in fault fuel [] Raise signum w.

(** A program run by a thread that blocks no signal, the kernel delivering
    the signals the program raises; nothing goes wrong around it. *)
Definition exec (fuel : nat) {R : Type} (p : prog R) (w : world) : outcome R :=
  run None (deliver_in None fuel []) p w.

(** The first [n] calls of a program: the world they leave and the program
    that remains. *)
Fixpoint run_steps (n : nat) (fault : option faults)
    (raise : raiser) {R : Type} (p : prog R) (w : world)
    : outcome (prog R) :=
  match n, p with
  | O, _ => Returned p w
  | S _, Ret _ => Returned p w
  | S n', Vis o k =>
    match sem fault raise o w with
    | Returned x w' => run_steps n' fault raise (k x) w'
    | Terminated s w' => Terminated s w'
    | Blocked w' => Blocked w'
    | OutOfFuel => OutOfFuel
    end
  end.

(** ** Handler invocations running at the same time *)

(** A handler invocation is either between two calls, with the rest of its
    program to run, or inside [http_content_refresh], which takes time: a
    refresh is in flight from the call until it returns. *)
Inductive tstate : Type :=
| TRun (p : prog unit)
| TInRefresh (k : bool -> prog unit).

(** The invocations started so far, which of them holds [sig_hup_mutex],
    and the world they share. *)
Record sys : Type := mk_sys {
  s_threads : list tstate;
  s_owner : option nat;
  s_world : world
}.

Definition in_flight (t : tstate) : bool :=
  match t with
  | TInRefresh _ => true
  | TRun _ => false
  end.

(** Invocation [i] makes a call that neither blocks nor takes time. *)
Definition step_plain (fuel : nat) (i : nat) (s : sys) {X : Type} (o : op X)
    (k : X -> prog unit) : option sys :=
  match sem None (deliver_in None fuel []) o (s_world s) with
  | Returned x w' =>
    Some (mk_sys (<[i := TRun (k x)]> (s_threads s)) (s_owner s) w')
  | _ => None
  end.

(** The next call of invocation [i]. [mutex_lock] goes through only when
    nobody holds the mutex, and the invocation waits otherwise;
    [mutex_unlock] is for the owner; [http_content_refresh] starts a
    refresh. *)
Definition step_call (fuel : nat) (i : nat) (s : sys) {X : Type} (o : op X)
    : (X -> prog unit) -> option sys :=
  match o in op X return (X -> prog unit) -> option sys with
  | mutex_lock m => fun k =>
    match s_owner s with
    | None =>
      Some (mk_sys (<[i := TRun (k tt)]> (s_threads s)) (Some i)
              (emit (EvMutexLock m) (set_mutex true (s_world s))))
    | Some _ => None
    end
  | mutex_unlock m => fun k =>
    if bool_decide (s_owner s = Some i) then
      Some (mk_sys (<[i := TRun (k tt)]> (s_threads s)) None
              (emit (EvMutexUnlock m) (set_mutex false (s_world s))))
    else None
  | http_content_refresh => fun k =>
    Some (mk_sys (<[i := TInRefresh k]> (s_threads s)) (s_owner s) (s_world s))
  | log_emit l => step_plain fuel i s (log_emit l)
  | sigemptyset => step_plain fuel i s sigemptyset
  | sigaction signum act => step_plain fuel i s (sigaction signum act)
  | abort => step_plain fuel i s abort
  | thread_launch entry => step_plain fuel i s (thread_launch entry)
  | nanosleep ts => step_plain fuel i s (nanosleep ts)
  | queue_signal => step_plain fuel i s queue_signal
  | net_trigger queue => step_plain fuel i s (net_trigger queue)
  | thread_join t => step_plain fuel i s (thread_join t)
  | status => step_plain fuel i s status
  end.

(** One step of invocation [i]: its next call, or the return of the
    refresh it is in. An invocation that has returned, that waits for the
    mutex, or that does not exist, has no step. *)
Definition tstep (fuel : nat) (i : nat) (s : sys) : option sys :=
  match s_threads s !! i with
  | Some (TRun (Vis o k)) => step_call fuel i s o k
  | Some (TInRefresh k) =>
    let '(b, w') := pop_refresh (s_world s) in
    Some (mk_sys (<[i := TRun (k b)]> (s_threads s)) (s_owner s)
            (emit (EvRefresh b) w'))
  | _ => None
  end.

(** A signal arrives and the kernel starts its handler, if it has one, on
    a thread of its own, next to the invocations already running. *)
Definition arrive (signum : Z) (s : sys) : option sys :=
  match w_disp (s_world s) !! signum with
  | Some act =>
    match sa_handler act with
    | Handler f =>
      Some (mk_sys (s_threads s ++ [TRun (handler_body f signum)])
              (s_owner s) (emit (EvEnter f signum) (s_world s)))
    | _ => None
    end
  | None => None
  end.

Inductive action : Type :=
| Arrive (signum : Z)
| Step (i : nat).

Definition sstep (fuel : nat) (a : action) (s : sys) : option sys :=
  match a with
  | Arrive signum => arrive signum s
  | Step i => tstep fuel i s
  end.

(** A schedule: the actions one after the other. *)
Fixpoint sys_run (fuel : nat) (sched : list action) (s : sys) : option sys :=
  match sched with
  | [] => Some s
  | a :: rest =>
    match sstep fuel a s with
    | Some s' => sys_run fuel rest s'
    | None => None
    end
  end.

(** The process once [signal_start] has set the table of [w], before any
    signal: no invocation, the mutex free. *)
Definition sys0 (w : world) : sys := mk_sys [] None w.

(** The lock discipline of a program: [http_content_refresh] and
    [mutex_unlock] are called with the mutex held, [mutex_lock] without. *)
Definition call_ok (held : bool) {X : Type} (o : op X) : Prop :=
  match o with
  | mutex_lock _ => held = false
  | mutex_unlock _ => held = true
  | http_content_refresh => held = true
  | _ => True
  end.

Definition held_after (held : bool) {X : Type} (o : op X) : bool :=
  match o with
  | mutex_lock _ => true
  | mutex_unlock _ => false
  | _ => held
  end.

Fixpoint disciplined (held : bool) (p : prog unit) : Prop :=
  match p with
  | Ret _ => True
  | Vis o k => call_ok held o ∧ ∀ x, disciplined (held_after held o) (k x)
  end.

Definition disciplined_thread (held : bool) (t : tstate) : Prop :=
  match t with
  | TRun p => disciplined held p
  | TInRefresh k => held = true ∧ ∀ b, disciplined true (k b)
  end.

(** The invariant of the running system: every invocation follows the
    discipline, from the place it has reached, and the owner of the mutex
    is one of the invocations. *)
Definition sys_inv (s : sys) : Prop :=
  (∀ i t, s_threads s !! i = Some t →
          disciplined_thread (bool_decide (s_owner s = Some i)) t) ∧
  (∀ i, s_owner s = Some i → (i < length (s_threads s))%nat).

(** The process of [world0] once [signal_start] has run in it. *)
Definition world1 : world :=
  match exec 0 signal_start world0 with
  | Returned _ w => w
  | _ => world0
  end.

(** ** Statements about the registration bootstrap *)

(** The four structures [signal_start] passes to [sigaction], as they
    stand after the field assignments and [sigemptyset]. *)
Definition sa_normal : struct_sigaction :=
  mk_sigaction (Handler fn_signal_shutdown) 0 [].
Definition sa_ignored : struct_sigaction :=
  mk_sigaction SIG_IGN 0 [].
Definition sa_segfault : struct_sigaction :=
  mk_sigaction (Handler fn_signal_segfault) SA_RESETHAND [].
Definition sa_hup : struct_sigaction :=
  mk_sigaction (Handler fn_signal_refresh) 0 [].

(** The registration calls of [signal_start], in the order of the source:
    four groups, each a [sigemptyset] on the group's structure ([None])
    followed by one [sigaction] per signal ([Some] of the signal and the
    structure). *)
Definition registration_calls : list (option (Z * struct_sigaction)) :=
  [ None;
    Some (SIGINT, sa_normal);
    Some (SIGQUIT, sa_normal);
    Some (SIGTERM, sa_normal);
    None;
    Some (SIGPIPE, sa_ignored);
    None;
    Some (SIGSEGV, sa_segfault);
    Some (SIGFPE, sa_segfault);
    Some (SIGBUS, sa_segfault);
    Some (SIGSYS, sa_segfault);
    Some (SIGABRT, sa_segfault);
    None;
    Some (SIGHUP, sa_hup) ].

(** The event of a registration call that returned [r]: [None] is a
    [sigemptyset], [Some (s, a)] is [sigaction(s, &a, NULL)]. *)
Definition call_event (c : option (Z * struct_sigaction)) (r : Z) : event :=
  match c with
  | None => EvSigemptyset r
  | Some (s, a) => EvSigaction s a r
  end.

(** The calls made with their return codes. *)
Definition calls_made (calls : list (option (Z * struct_sigaction)))
    (rs : list Z) : list event :=
  zip_with call_event calls rs.

(** The line logged when the call of position [k] fails: the message of the
    group the call belongs to. *)
Definition registration_failure_line (k : nat) : log_line :=
  mk_log_line M_LOG_INFO false
    (if (k <? 4)%nat then msg_setup_shutdown
     else if (k <? 6)%nat then msg_setup_ignore
     else if (k <? 12)%nat then msg_setup_shutdown
     else msg_setup_thread_status)
    None.

(** The return codes the next [n] registration calls will get: the
    scripted ones, then zeros. *)
Fixpoint pad_rets (n : nat) (rs : list Z) : list Z :=
  match n with
  | O => []
  | S n' =>
    match rs with
    | [] => 0 :: pad_rets n' []
    | r :: rs' => r :: pad_rets n' rs'
    end
  end.

Definition upcoming_rets (n : nat) (w : world) : list Z :=
  pad_rets n (w_rets w).

(** The position of the first call that fails. *)
Fixpoint first_nonzero (rs : list Z) : option nat :=
  match rs with
  | [] => None
  | r :: rs' => if r =? 0 then S <$> first_nonzero rs' else Some O
  end.

(** What a list of calls leaves in the disposition table: each
    [sigaction] that returned zero has installed its structure. *)
Definition install (d : gmap Z struct_sigaction) (e : event)
    : gmap Z struct_sigaction :=
  match e with
  | EvSigaction s a r => if r =? 0 then <[s := a]> d else d
  | _ => d
  end.

Definition installed (evs : list event) (d : gmap Z struct_sigaction)
    : gmap Z struct_sigaction :=
  foldl install d evs.

(** The signals whose disposition a list of events asks to set. *)
Definition event_signums (evs : list event) : list Z :=
  omap (λ e, match e with EvSigaction s _ _ => Some s | _ => None end) evs.

(** The signals a list of calls sets the disposition of. *)
Definition call_signums (calls : list (option (Z * struct_sigaction)))
    : list Z :=
  omap (λ c, fst <$> c) calls.

(** The same signal delivered [n] times in a row, as long as the process
    survives. *)
Fixpoint deliver_n (fuel n : nat) (signum : Z) (w : world) : outcome unit :=
  match n with
  | O => Returned tt w
  | S n' =>
    match deliver None fuel signum w with
    | Returned _ w' => deliver_n fuel n' signum w'
    | o => o
    end
  end.

(** ** Statements about the shutdown handler *)

(** The handler publishes [Draining] itself before it launches the helper
    thread: after some number of its calls the Shutdown Status is
    [Draining] and no thread has been launched yet. *)
Definition publishes_before_launch (signal : Z) (w : world) : Prop :=
  ∃ (n : nat) (p : prog unit) (w1 : world),
    run_steps n None (deliver_in None 0 []) (signal_shutdown signal) w
      = Returned p w1 ∧
    w_status w1 = Draining ∧
    ∀ entry t, EvThreadLaunch entry t ∉ w_trace w1.

(** The line [signal_shutdown] logs, and [signal_shutdown] after its
    [thread_launch], with the handle [status_thread] holds. *)
Definition shutdown_line (signal : Z) : log_line :=
  mk_log_line M_LOG_CRITICAL false msg_shutdown (Some signal).

Definition shutdown_tail (status_thread : pthread_t) : prog unit :=
  call (nanosleep split) ;;
  call queue_signal ;;
  call (nanosleep single) ;;
  call (nanosleep single) ;;
  call (nanosleep single) ;;
  call (net_trigger true) ;;
  call queue_signal ;;
  call (thread_join status_thread) ;;
  Ret tt.

(** No launched thread is still to run. *)
Definition no_pending (w : world) : Prop :=
  Forall (λ ft, ft.2 ≠ ThPending) (w_threads w).

(** The status is [s], the threads are [ts], and none of them is still to
    run. *)
Definition calm (s : shutdown_status) (ts : list (thread_fn * thread_state))
    (w : world) : Prop :=
  w_status w = s ∧ w_threads w = ts ∧ no_pending w.

(** The helper thread [i] has been launched and not joined: either it has
    not run yet, or it has and the status is [Draining]. *)
Definition helper_live (i : nat) (w : world) : Prop :=
  w_threads w !! i = Some (status_signal, ThPending) ∨
  (w_threads w !! i = Some (status_signal, ThFinished) ∧
   w_status w = Draining).

(** ** Statements about the rest of the lifecycle *)

(** The structure [signal_thread_start] passes to [sigaction]. *)
Definition sa_status : struct_sigaction :=
  mk_sigaction (Handler fn_signal_status) 0 [].

(** The signals [signal_start] sets the disposition of. *)
Definition registered_signums : list Z := call_signums registration_calls.

(** The ten registrations of [signal_start] as a table. *)
Definition registration_table : gmap Z struct_sigaction :=
  list_to_map (omap id registration_calls).

(** The calls of one run of [signal_shutdown], [t] being the handle its
    [thread_launch] returns. *)
Definition shutdown_calls (signal : Z) (t : pthread_t) : list event :=
  [ EvLog (mk_log_line M_LOG_CRITICAL false msg_shutdown (Some signal));
    EvThreadLaunch status_signal t;
    EvNanosleep split;
    EvQueueSignal;
    EvNanosleep single;
    EvNanosleep single;
    EvNanosleep single;
    EvNetTrigger true;
    EvQueueSignal;
    EvThreadJoin t ].

(** The structure [signal_segfault] passes to [sigaction]: the default
    disposition. *)
Definition sa_clear : struct_sigaction := mk_sigaction SIG_DFL 0 [].

(** How [abort] ends, as the outcome of the function that called it. *)
Definition aborted (raise : raiser) (w : world) : outcome unit :=
  match sem_abort raise w with
  | Returned e _ => match e with end
  | Terminated s w' => Terminated s w'
  | Blocked w' => Blocked w'
  | OutOfFuel => OutOfFuel
  end.

(** ** Statements about the crash handler *)

(** [signal_segfault] after its log call. *)
Definition segfault_tail : prog unit :=
  let clear := mm_wipe in
  let* '(_, clear) := sigemptyset_mask clear in
  let clear := set_sa_handler SIG_DFL clear in
  let clear := set_sa_flags 0 clear in
  call (sigaction SIGABRT clear) ;;
  let* e := call abort in
  match e : Empty_set with end.

(** A signal that has a handler in the table. *)
Definition armed (d : gmap Z struct_sigaction) (g : Z) : bool :=
  match d !! g with
  | Some act =>
    match sa_handler act with
    | Handler _ => true
    | _ => false
    end
  | None => false
  end.

Fixpoint count_armed (d : gmap Z struct_sigaction) (l : list Z) : nat :=
  match l with
  | [] => O
  | g :: l' => ((if armed d g then 1 else 0) + count_armed d l')%nat
  end.

(** How many of the fatal signals have a handler. *)
Definition armed_count (d : gmap Z struct_sigaction) : nat :=
  count_armed d fatal_signals.

(** The line [signal_segfault] logs. *)
Definition segfault_line (signal : Z) : log_line :=
  mk_log_line M_LOG_CRITICAL true msg_segfault (Some signal).

(** A table in which a fatal signal has no other handler than the
    one-shot crash handler, as [signal_start] installs it. *)
Definition crash_table (d : gmap Z struct_sigaction) : Prop :=
  ∀ g act, g ∈ fatal_signals → d !! g = Some act →
           sa_handler act = SIG_DFL ∨ act = sa_segfault.

(** The signals raised inside the logging path are fatal signals. *)
Definition fatal_faults (fault : option faults) : Prop :=
  ∀ fs k how g,
    fault = Some fs → f_raise fs k = Some (how, g) → g ∈ fatal_signals.

(** A run that ends with the process killed by a fatal signal, after
    handler invocations for signals that had a handler in [w], no two of
    them for the same signal. *)
Definition crash_outcome (w : world) (o : outcome unit) : Prop :=
  match o with
  | Terminated sg w' =>
    sg ∈ fatal_signals ∧
    ∃ evs, w_trace w' = w_trace w ++ evs ∧
           NoDup (entered evs) ∧
           ∀ g, g ∈ entered evs →
                g ∈ fatal_signals ∧ armed (w_disp w) g = true
  | _ => False
  end.

(** What raising a fatal signal does, in a world with at most [n] fatal
    signals that have a handler: the signal stays pending, which it can
    only if it was raised by [raise], or the process ends as above. *)
Definition raise_outcome (how : raise_kind) (s : Z) (w : world)
    (o : outcome unit) : Prop :=
  match o with
  | Returned _ w' => how = Raise ∧ w' = emit (EvPending s) w
  | Terminated sg w' => crash_outcome w (Terminated sg w')
  | _ => False
  end.

Definition crash_raise_ok (n : nat) (raise : raiser) : Prop :=
  ∀ how s w,
    s ∈ fatal_signals → crash_table (w_disp w) →
    (armed_count (w_disp w) ≤ n)%nat →
    raise_outcome how s w (raise how s w).

(** The handler running for [f], the signal [g] raised from inside its
    logging path, in whatever way, does not start the handler again:
    however the run ends, the handler has been entered once. *)
Definition never_reenters (f g : Z) (w : world) : Prop :=
  ∀ how fuel sg w2,
    deliver (Some (raising how g)) fuel f w = Terminated sg w2 →
    handler_entries (w_trace w2) = S (handler_entries (w_trace w)).

(** One invocation after the other crashes in its logging path, each on
    a fatal signal that still has its handler. *)
Definition one_by_one : faults :=
  {| f_raise := fun k =>
       pair Fault <$> [SIGFPE; SIGBUS; SIGSYS; SIGABRT] !! (k - 1)%nat;
     f_launch := fun _ => false |}.

(** ** Statements about the reload mutex being released *)

(** A call that has to do with the reload mutex. *)
Definition is_lock_call {X : Type} (o : op X) : bool :=
  match o with
  | mutex_lock _ | mutex_unlock _ | http_content_refresh => true
  | _ => false
  end.

(** A program that never takes or releases the mutex and never
    refreshes. *)
Fixpoint lock_free (p : prog unit) : Prop :=
  match p with
  | Ret _ => True
  | Vis o k => is_lock_call o = false ∧ ∀ x, lock_free (k x)
  end.

(** A program inside the critical section that releases the mutex within
    [n] steps of its own: until [mutex_unlock] it only starts the refresh
    (two steps, the call and the return) and logs, and after the unlock it
    leaves the mutex alone. *)
Fixpoint crit (n : nat) (p : prog unit) : Prop :=
  match n with
  | O => False
  | S n' =>
    match p with
    | Ret _ => False
    | Vis o k =>
      match o in op X return (X → prog unit) → Prop with
      | mutex_unlock _ => λ k, lock_free (k tt)
      | log_emit _ => λ k, crit n' (k tt)
      | http_content_refresh => λ k,
        match n' with
        | O => False
        | S n'' => ∀ b, crit n'' (k b)
        end
      | _ => λ _, False
      end k
    end
  end.

Definition tcrit (n : nat) (t : tstate) : Prop :=
  match t with
  | TRun p => crit n p
  | TInRefresh k =>
    match n with
    | O => False
    | S n' => ∀ b, crit n' (k b)
    end
  end.

(** A program outside the critical section: if it takes the mutex it
    releases it within four steps, and it does not unlock or refresh
    without having taken it. *)
Definition lock_entry {X : Type} (o : op X) : (X → prog unit) → Prop :=
  match o in op X return (X → prog unit) → Prop with
  | mutex_lock _ => λ k, crit 4 (k tt)
  | mutex_unlock _ => λ _, False
  | http_content_refresh => λ _, False
  | _ => λ _, True
  end.

Fixpoint idle (p : prog unit) : Prop :=
  match p with
  | Ret _ => True
  | Vis o k => lock_entry o k ∧ (is_lock_call o = false → ∀ x, idle (k x))
  end.

Definition tidle (t : tstate) : Prop :=
  match t with
  | TRun p => idle p
  | TInRefresh _ => False
  end.

(** The invariant behind the release: the owner of the mutex is inside
    the critical section, within four steps of releasing; everyone else
    is outside. *)
Definition sys_live (s : sys) : Prop :=
  (∀ i t, s_threads s !! i = Some t →
          if bool_decide (s_owner s = Some i)
          then ∃ n, (n ≤ 4)%nat ∧ tcrit n t
          else tidle t) ∧
  (∀ i, s_owner s = Some i → (i < length (s_threads s))%nat).

(** * Properties *)

(** ** Threads and sleeps leave the rest of the world alone *)

Section Frame.

Lemma handler_entries_app (a b : list event) :
  handler_entries (a ++ b) = (handler_entries a + handler_entries b)%nat.
Proof.
  induction a as [|e a IH]; [done|]. destruct e; simpl; by rewrite ?IH.
Qed.

Lemma entered_app (a b : list event) : entered (a ++ b) = entered a ++ entered b.
Proof. apply omap_app. Qed.

Lemma handler_entries_entered (evs : list event) :
  handler_entries evs = length (entered evs).
Proof.
  induction evs as [|e evs IH]; [done|]. destruct e; simpl; by rewrite ?IH.
Qed.

Lemma run_pending_fold_frame (ts : list (thread_fn * thread_state)) (w : world) :
  let w' := foldl (fun acc '(f, st) =>
                     match st with
                     | ThPending => thread_body f acc
                     | _ => acc
                     end) w ts in
  w_trace w' = w_trace w ∧ w_log w' = w_log w ∧ w_disp w' = w_disp w ∧
  w_mutex w' = w_mutex w ∧ w_threads w' = w_threads w ∧
  w_rets w' = w_rets w ∧ w_refresh w' = w_refresh w ∧
  w_sched w' = w_sched w.
Proof.
  revert w. induction ts as [|[f st] ts IH]; intros w; simpl; [done|].
  destruct st; simpl; try apply IH.
  destruct f. specialize (IH (set_status Draining w)). simpl in IH. apply IH.
Qed.

Lemma run_pending_trace w : w_trace (run_pending w) = w_trace w.
Proof. unfold run_pending. simpl. apply run_pending_fold_frame. Qed.

Lemma run_pending_log w : w_log (run_pending w) = w_log w.
Proof. unfold run_pending. simpl. apply run_pending_fold_frame. Qed.

Lemma run_pending_threads_length w :
  length (w_threads (run_pending w)) = length (w_threads w).
Proof. unfold run_pending. simpl. by rewrite length_map. Qed.

Lemma sched_point_trace w : w_trace (sched_point w) = w_trace w.
Proof.
  unfold sched_point, pop_sched.
  destruct (w_sched w) as [|[] l]; try done.
  exact (run_pending_trace (set_sched l w)).
Qed.

Lemma sched_point_log w : w_log (sched_point w) = w_log w.
Proof.
  unfold sched_point, pop_sched.
  destruct (w_sched w) as [|[] l]; try done.
  exact (run_pending_log (set_sched l w)).
Qed.

Lemma sched_point_threads_length w :
  length (w_threads (sched_point w)) = length (w_threads w).
Proof.
  unfold sched_point, pop_sched.
  destruct (w_sched w) as [|[] l]; try done.
  exact (run_pending_threads_length (set_sched l w)).
Qed.

Lemma join_thread_trace t w : w_trace (join_thread t w) = w_trace w.
Proof.
  unfold join_thread. destruct t; [done|].
  destruct (w_threads w !! t) as [[f []]|]; try done. by destruct f.
Qed.

Lemma join_thread_log t w : w_log (join_thread t w) = w_log w.
Proof.
  unfold join_thread. destruct t; [done|].
  destruct (w_threads w !! t) as [[f []]|]; try done. by destruct f.
Qed.

(** A line without a stack trace is written, whatever goes wrong
    elsewhere. *)
Lemma sem_log_plain fault raise l w :
  ll_stack_trace l = false →
  sem_log fault raise l w = Returned tt (write_log l w).
Proof.
  intros Hl. unfold sem_log, fault_signal. rewrite Hl. by destruct fault.
Qed.

Lemma launch_fails_write_log fault l w :
  launch_fails fault (write_log l w) = launch_fails fault w.
Proof.
  destruct fault as [fs|]; [|done]. simpl.
  rewrite handler_entries_app. simpl. by rewrite Nat.add_0_r.
Qed.

End Frame.

#[local] Arguments sched_point : simpl never.
#[local] Arguments join_thread : simpl never.

Create Rewrite HintDb frame.
#[local] Hint Rewrite sched_point_trace sched_point_log join_thread_trace
  join_thread_log : frame.

(** ** The shutdown sequence *)

(** C1. For every signal it is invoked with, hence for each of SIGINT,
    SIGQUIT and SIGTERM, [signal_shutdown] returns, and the calls it has made
    are these, in this order: the log line that a graceful exit is being
    attempted, the launch of the status helper thread, a sleep of 100
    milliseconds, the first worker wake ([queue_signal]), three sleeps of
    one second, the forced close [net_trigger(true)], the second worker
    wake, and the join of the helper thread. *)
Theorem signal_shutdown_order (signal : Z) (fuel : nat) (w : world) :
  ∃ w',
    exec fuel (signal_shutdown signal) w = Returned tt w' ∧
    w_trace w' = w_trace w ++
      [ EvLog (mk_log_line M_LOG_CRITICAL false msg_shutdown (Some signal));
        EvThreadLaunch status_signal (S (length (w_threads w)));
        EvNanosleep (mk_timespec 0 100000000);
        EvQueueSignal;
        EvNanosleep (mk_timespec 1 0);
        EvNanosleep (mk_timespec 1 0);
        EvNanosleep (mk_timespec 1 0);
        EvNetTrigger true;
        EvQueueSignal;
        EvThreadJoin (S (length (w_threads w))) ].
Proof.
  eexists. split; [reflexivity|].
  simpl. autorewrite with frame. simpl.
  repeat (autorewrite with frame; simpl).
  by rewrite <- !app_assoc.
Qed.

(** ** Who publishes the status *)

Section HelperThread.

(** Running the pending threads leaves the status as it was or moves it
    to [Draining]; it is [Draining] if one of them was pending. *)
Lemma run_pending_fold_status (ts : list (thread_fn * thread_state)) (w : world) :
  let w' := foldl (fun acc '(f, st) =>
                     match st with
                     | ThPending => thread_body f acc
                     | _ => acc
                     end) w ts in
  (w_status w = Draining → w_status w' = Draining) ∧
  (∀ i f, ts !! i = Some (f, ThPending) → w_status w' = Draining) ∧
  (Forall (λ ft, ft.2 ≠ ThPending) ts → w_status w' = w_status w).
Proof.
  revert w. induction ts as [|[f st] ts IH]; intros w; simpl.
  { split; [done|]. split; [|done]. intros i f Hi. by rewrite lookup_nil in Hi. }
  destruct st; simpl.
  - destruct f. destruct (IH (set_status Draining w)) as (IH1 & _ & _).
    split; [intros; by apply IH1|]. split; [intros; by apply IH1|].
    intros Hall. by apply Forall_cons_1 in Hall as [? _].
  - destruct (IH w) as (IH1 & IH2 & IH3). split; [done|]. split.
    + intros [|i] g Hi; simplify_eq/=. eauto.
    + intros Hall. apply Forall_cons_1 in Hall as [_ Hall]. by apply IH3.
  - destruct (IH w) as (IH1 & IH2 & IH3). split; [done|]. split.
    + intros [|i] g Hi; simplify_eq/=. eauto.
    + intros Hall. apply Forall_cons_1 in Hall as [_ Hall]. by apply IH3.
Qed.

Lemma helper_live_run_pending i w :
  helper_live i w → helper_live i (run_pending w).
Proof.
  unfold helper_live, run_pending. simpl.
  destruct (run_pending_fold_status (w_threads w) w) as (H1 & H2 & _).
  intros [Hp | [Hf Hs]]; right; rewrite list_lookup_fmap.
  - rewrite Hp. split; [done|]. eapply H2, Hp.
  - rewrite Hf. split; [done|]. by apply H1.
Qed.

Lemma helper_live_sched_point i w :
  helper_live i w → helper_live i (sched_point w).
Proof.
  unfold sched_point, pop_sched. intros H.
  destruct (w_sched w) as [|[] l]; try done.
  exact (helper_live_run_pending i (set_sched l w) H).
Qed.

Lemma helper_live_emit i e w : helper_live i w → helper_live i (emit e w).
Proof. done. Qed.

Lemma helper_live_launch (w : world) :
  helper_live (length (w_threads w))
    (set_threads (w_threads w ++ [(status_signal, ThPending)]) w).
Proof. left. simpl. by apply list_lookup_middle. Qed.

Lemma helper_live_join i e w :
  helper_live i w → w_status (emit e (join_thread (S i) w)) = Draining.
Proof.
  unfold helper_live, join_thread. simpl.
  intros [-> | [-> Hs]]; done.
Qed.

Lemma helper_live_joined i e w :
  helper_live i w →
  w_threads (emit e (join_thread (S i) w)) !! i = Some (status_signal, ThJoined).
Proof.
  unfold helper_live, join_thread. simpl.
  intros [Hp | [Hp Hs]]; rewrite Hp; simpl;
    apply list_lookup_insert_eq; by eapply lookup_lt_Some.
Qed.

(** Where no thread is still to run, the status and the threads stay as
    they are through the calls that give the scheduler a chance. *)
Lemma calm_emit s ts e w : calm s ts w → calm s ts (emit e w).
Proof. done. Qed.

Lemma calm_write_log s ts l w : calm s ts w → calm s ts (write_log l w).
Proof. done. Qed.

Lemma finish_no_pending (ts : list (thread_fn * thread_state)) :
  Forall (λ ft, ft.2 ≠ ThPending) ts →
  map (fun '(f, st) =>
         (f, match st with ThPending => ThFinished | _ => st end)) ts = ts.
Proof.
  induction 1 as [|[f st] l Hst Hl IH]; [done|].
  cbn [map]. rewrite IH. by destruct st.
Qed.

Lemma calm_run_pending s ts w : calm s ts w → calm s ts (run_pending w).
Proof.
  intros (Hs & Ht & Hn). unfold calm, no_pending, run_pending.
  destruct (run_pending_fold_status (w_threads w) w) as (_ & _ & H3).
  cbn [w_status w_threads set_threads]. rewrite (finish_no_pending _ Hn).
  split; [by rewrite H3|]. by split.
Qed.

Lemma calm_sched_point s ts w : calm s ts w → calm s ts (sched_point w).
Proof.
  unfold sched_point, pop_sched. intros H.
  destruct (w_sched w) as [|[] l]; try done.
  exact (calm_run_pending s ts (set_sched l w) H).
Qed.

Lemma calm_join_wiped s ts w : calm s ts w → calm s ts (join_thread O w).
Proof. done. Qed.

End HelperThread.

Ltac helper_live_steps :=
  repeat lazymatch goal with
         | |- helper_live _ (emit _ _) => apply helper_live_emit
         | |- helper_live _ (sched_point _) => apply helper_live_sched_point
         end.

Ltac calm_steps :=
  repeat lazymatch goal with
         | |- calm _ _ (emit _ _) => apply calm_emit
         | |- calm _ _ (sched_point _) => apply calm_sched_point
         | |- calm _ _ (join_thread O _) => apply calm_join_wiped
         | |- calm _ _ (write_log _ _) => apply calm_write_log
         end.

Section Shutdown.

(** The first two calls of [signal_shutdown]. *)
Lemma run_signal_shutdown fault raise signal w :
  run fault raise (signal_shutdown signal) w =
    match sem_thread_launch fault status_signal
            (write_log (shutdown_line signal) w) with
    | Returned t w1 => run fault raise (shutdown_tail t) w1
    | Terminated s w1 => Terminated s w1
    | Blocked w1 => Blocked w1
    | OutOfFuel => OutOfFuel
    end.
Proof. destruct fault; reflexivity. Qed.

Lemma run_steps_signal_shutdown_1 fault raise signal w :
  run_steps 1 fault raise (signal_shutdown signal) w =
    Returned (let* t := call (thread_launch status_signal) in shutdown_tail t)
      (write_log (shutdown_line signal) w).
Proof. destruct fault; reflexivity. Qed.

Lemma run_steps_signal_shutdown_2 fault raise signal w :
  run_steps 2 fault raise (signal_shutdown signal) w =
    match sem_thread_launch fault status_signal
            (write_log (shutdown_line signal) w) with
    | Returned t w1 => Returned (shutdown_tail t) w1
    | Terminated s w1 => Terminated s w1
    | Blocked w1 => Blocked w1
    | OutOfFuel => OutOfFuel
    end.
Proof.
  destruct fault as [fs|]; [|reflexivity].
  simpl. unfold sem_thread_launch. simpl. by destruct (f_launch fs _).
Qed.

End Shutdown.

(** C3, as the claim has it, fails: started by SIGINT in a fresh process,
    the handler reaches no point where the status is [Draining] and the
    helper thread is still to be launched. *)
Lemma signal_shutdown_does_not_publish :
  ¬ publishes_before_launch SIGINT world0.
Proof.
  intros (n & p & w1 & Hrun & Hst & Hno).
  destruct n as [|[|n]].
  - vm_compute in Hrun. injection Hrun as _ <-. done.
  - vm_compute in Hrun. injection Hrun as _ <-. done.
  - assert (EvThreadLaunch status_signal 1%nat ∈ w_trace w1) as Hin;
      [|by apply Hno in Hin].
    do 9 (destruct n as [|n];
          [vm_compute in Hrun; injection Hrun as _ <-;
           apply list_elem_of_In; simpl; tauto|]).
    vm_compute in Hrun. injection Hrun as _ <-.
    apply list_elem_of_In; simpl; tauto.
Qed.

Create Rewrite HintDb fields.

Section ShutdownRun.

Lemma run_pending_disp w : w_disp (run_pending w) = w_disp w.
Proof. unfold run_pending. simpl. apply run_pending_fold_frame. Qed.

Lemma run_pending_mutex w : w_mutex (run_pending w) = w_mutex w.
Proof. unfold run_pending. simpl. apply run_pending_fold_frame. Qed.

Lemma sched_point_disp w : w_disp (sched_point w) = w_disp w.
Proof.
  unfold sched_point, pop_sched.
  destruct (w_sched w) as [|[] l]; try done.
  exact (run_pending_disp (set_sched l w)).
Qed.

Lemma sched_point_mutex w : w_mutex (sched_point w) = w_mutex w.
Proof.
  unfold sched_point, pop_sched.
  destruct (w_sched w) as [|[] l]; try done.
  exact (run_pending_mutex (set_sched l w)).
Qed.

Lemma join_thread_disp t w : w_disp (join_thread t w) = w_disp w.
Proof.
  unfold join_thread. destruct t; [done|].
  destruct (w_threads w !! t) as [[f []]|]; try done. by destruct f.
Qed.

Lemma join_thread_mutex t w : w_mutex (join_thread t w) = w_mutex w.
Proof.
  unfold join_thread. destruct t; [done|].
  destruct (w_threads w !! t) as [[f []]|]; try done. by destruct f.
Qed.

Lemma join_thread_threads_length t w :
  length (w_threads (join_thread t w)) = length (w_threads w).
Proof.
  unfold join_thread. destruct t; [done|].
  destruct (w_threads w !! t) as [[f []]|]; try done; simpl;
    try destruct f; simpl; by rewrite length_insert.
Qed.

(** What [emit], [write_log] and [set_threads] leave alone. *)
Lemma w_log_emit e w : w_log (emit e w) = w_log w.
Proof. reflexivity. Qed.
Lemma w_disp_emit e w : w_disp (emit e w) = w_disp w.
Proof. reflexivity. Qed.
Lemma w_mutex_emit e w : w_mutex (emit e w) = w_mutex w.
Proof. reflexivity. Qed.
Lemma w_threads_emit e w : w_threads (emit e w) = w_threads w.
Proof. reflexivity. Qed.
Lemma w_log_write_log l w : w_log (write_log l w) = w_log w ++ [l].
Proof. reflexivity. Qed.
Lemma w_disp_write_log l w : w_disp (write_log l w) = w_disp w.
Proof. reflexivity. Qed.
Lemma w_mutex_write_log l w : w_mutex (write_log l w) = w_mutex w.
Proof. reflexivity. Qed.
Lemma w_threads_write_log l w : w_threads (write_log l w) = w_threads w.
Proof. reflexivity. Qed.
Lemma w_log_set_threads ts w : w_log (set_threads ts w) = w_log w.
Proof. reflexivity. Qed.
Lemma w_disp_set_threads ts w : w_disp (set_threads ts w) = w_disp w.
Proof. reflexivity. Qed.
Lemma w_mutex_set_threads ts w : w_mutex (set_threads ts w) = w_mutex w.
Proof. reflexivity. Qed.
Lemma w_threads_set_threads ts w : w_threads (set_threads ts w) = ts.
Proof. reflexivity. Qed.

#[local] Hint Rewrite sched_point_log join_thread_log
  sched_point_disp sched_point_mutex join_thread_disp
  join_thread_mutex join_thread_threads_length sched_point_threads_length
  w_log_emit w_disp_emit w_mutex_emit w_threads_emit
  w_log_write_log w_disp_write_log w_mutex_write_log w_threads_write_log
  w_log_set_threads w_disp_set_threads w_mutex_set_threads
  w_threads_set_threads : fields.

(** The rest of [signal_shutdown], with the handle the launch left. *)
Lemma shutdown_tail_run fault raise t w :
  ∃ w',
    run fault raise (shutdown_tail t) w = Returned tt w' ∧
    w_trace w' = w_trace w ++
      [ EvNanosleep split; EvQueueSignal; EvNanosleep single;
        EvNanosleep single; EvNanosleep single; EvNetTrigger true;
        EvQueueSignal; EvThreadJoin t ] ∧
    w_log w' = w_log w ∧
    w_disp w' = w_disp w ∧
    w_mutex w' = w_mutex w ∧
    length (w_threads w') = length (w_threads w) ∧
    (∀ i, t = S i → helper_live i w →
          w_status w' = Draining ∧
          w_threads w' !! i = Some (status_signal, ThJoined)) ∧
    (∀ s ts, t = O → calm s ts w → calm s ts w').
Proof.
  eexists. split; [reflexivity|].
  split; [|split; [|split; [|split; [|split; [|split]]]]].
  - simpl. repeat (autorewrite with frame; simpl).
    by rewrite <- !app_assoc.
  - autorewrite with fields. reflexivity.
  - autorewrite with fields. reflexivity.
  - autorewrite with fields. reflexivity.
  - autorewrite with fields. reflexivity.
  - intros i -> Hlive. split.
    + apply helper_live_join. by helper_live_steps.
    + apply helper_live_joined. by helper_live_steps.
  - intros s ts -> Hcalm. by calm_steps.
Qed.

(** One run of [signal_shutdown], whatever raising a signal would do and
    whether or not the helper thread can be launched. The handle [t] is
    that of the new thread, or zero when the launch failed. *)
Lemma signal_shutdown_run fault raise (signal : Z) (w : world) :
  ∃ t w',
    run fault raise (signal_shutdown signal) w = Returned tt w' ∧
    t = (if launch_fails fault w then O else S (length (w_threads w))) ∧
    w_trace w' = w_trace w ++ shutdown_calls signal t ∧
    w_log w' = w_log w ++ [shutdown_line signal] ∧
    w_disp w' = w_disp w ∧
    w_mutex w' = w_mutex w ∧
    (t ≠ O →
     length (w_threads w') = S (length (w_threads w)) ∧
     w_threads w' !! length (w_threads w) = Some (status_signal, ThJoined) ∧
     w_status w' = Draining) ∧
    (t = O →
     length (w_threads w') = length (w_threads w) ∧
     (no_pending w → w_status w' = w_status w ∧ w_threads w' = w_threads w)).
Proof.
  rewrite run_signal_shutdown. unfold sem_thread_launch.
  rewrite launch_fails_write_log.
  destruct (launch_fails fault w).
  - destruct (shutdown_tail_run fault raise O
                (emit (EvThreadLaunch status_signal O)
                   (write_log (shutdown_line signal) w)))
      as (w' & Hrun & Ht & Hl & Hd & Hm & Hlen & _ & Hcalm).
    exists O, w'. split; [exact Hrun|]. split; [done|].
    split; [rewrite Ht; simpl; by rewrite <- !app_assoc|].
    split; [done|]. split; [done|]. split; [done|]. split; [done|].
    intros _. split; [exact Hlen|]. intros Hn.
    destruct (Hcalm (w_status w) (w_threads w) eq_refl) as (Hs & Hts & _);
      [|done].
    by calm_steps.
  - cbv zeta.
    destruct (shutdown_tail_run fault raise (S (length (w_threads w)))
                (emit (EvThreadLaunch status_signal (S (length (w_threads w))))
                   (sched_point
                      (set_threads
                         (w_threads (write_log (shutdown_line signal) w)
                            ++ [(status_signal, ThPending)])
                         (write_log (shutdown_line signal) w)))))
      as (w' & Hrun & Ht & Hl & Hd & Hm & Hlen & Hlive & _).
    exists (S (length (w_threads w))), w'. split; [exact Hrun|].
    split; [done|].
    split.
    { rewrite Ht. simpl. rewrite sched_point_trace. simpl.
      by rewrite <- !app_assoc. }
    split; [rewrite Hl; by autorewrite with fields|].
    split; [rewrite Hd; by autorewrite with fields|].
    split; [rewrite Hm; by autorewrite with fields|].
    split; [|done]. intros _.
    split.
    { rewrite Hlen. autorewrite with fields. rewrite length_app. simpl. lia. }
    destruct (Hlive (length (w_threads w)) eq_refl) as [Hst Hj]; [|done].
    helper_live_steps.
    exact (helper_live_launch (write_log (shutdown_line signal) w)).
Qed.

End ShutdownRun.

(** C3, amended. [signal_shutdown] first logs that a graceful exit is being
    attempted and then calls [thread_launch] for the helper thread
    [status_signal]; it does not write the Shutdown Status itself. With no
    other thread there to write it, the status is what it was on entry
    when [thread_launch] is called, and, if the launch fails, at the
    return as well. Publishing [Draining] is left to the helper thread:
    when the launch succeeds the status is [Draining] once the handler has
    joined the helper and returns. *)
Theorem signal_shutdown_delegates_status (signal : Z) (fault : option faults)
    (fuel : nat) (w : world) :
  (∃ p w1,
     run_steps 1 fault (deliver_in fault fuel []) (signal_shutdown signal) w
       = Returned p w1 ∧
     w_trace w1 = w_trace w ++ [EvLog (shutdown_line signal)] ∧
     w_threads w1 = w_threads w ∧
     (no_pending w → w_status w1 = w_status w)) ∧
  (∃ t p w2,
     run_steps 2 fault (deliver_in fault fuel []) (signal_shutdown signal) w
       = Returned p w2 ∧
     w_trace w2 = w_trace w ++
       [EvLog (shutdown_line signal); EvThreadLaunch status_signal t]) ∧
  (∃ t w',
     run fault (deliver_in fault fuel []) (signal_shutdown signal) w
       = Returned tt w' ∧
     w_trace w' = w_trace w ++ shutdown_calls signal t ∧
     (t = O → no_pending w → w_status w' = w_status w) ∧
     (t ≠ O → w_status w' = Draining)).
Proof.
  split; [|split].
  - rewrite run_steps_signal_shutdown_1. by eexists _, _.
  - rewrite run_steps_signal_shutdown_2. unfold sem_thread_launch.
    destruct (launch_fails fault _).
    + eexists _, _, _. split; [reflexivity|]. simpl.
      by rewrite <- app_assoc.
    + eexists _, _, _. split; [reflexivity|]. simpl.
      rewrite sched_point_trace. simpl. by rewrite <- app_assoc.
  - destruct (signal_shutdown_run fault (deliver_in fault fuel []) signal w)
      as (t & w' & Hrun & _ & Ht & _ & _ & _ & Hok & Hfail).
    exists t, w'. split; [exact Hrun|]. split; [exact Ht|]. split.
    + intros H0 Hn. by apply Hfail.
    + intros Hne. by apply Hok.
Qed.

(** ** The registration bootstrap *)

Lemma first_nonzero_None (rs : list Z) :
  first_nonzero rs = None ↔ Forall (λ r, r = 0) rs.
Proof.
  induction rs as [|r rs IH]; simpl; [by split|].
  destruct (Z.eqb_spec r 0) as [->|Hr].
  - rewrite fmap_None, IH. split; [by constructor|by inversion 1].
  - split; [done|]. by inversion 1.
Qed.

(** Evaluation of a run on a world given by its fields: the definitions of
    this file and the comparisons on [Z] are unfolded, the operations on the
    disposition table and on lists are left as they are. *)
Ltac run_world :=
  lazy [exec run run_steps sem sem_log sem_sigemptyset sem_sigaction
        sem_mutex_lock sem_refresh sem_thread_launch sem_nanosleep
        status_running write_log emit world0
        bind call c_or nonzero
        signal_start signal_thread_start signal_refresh signal_status
        signal_shutdown
        sigemptyset_mask log_info log_error log_critical log_options
        pop_ret pop_refresh
        set_trace set_log set_disp set_status set_mutex set_threads set_rets
        set_refresh set_sched
        w_trace w_log w_disp w_status w_mutex w_threads w_rets w_refresh
        w_sched
        valid_signum mm_wipe set_sa_handler set_sa_flags set_sa_mask
        sa_handler sa_flags sa_mask
        SIGHUP SIGINT SIGQUIT SIGABRT SIGBUS SIGFPE SIGKILL SIGSEGV SIGPIPE
        SIGALRM SIGTERM SIGSTOP SIGSYS
        Z.eqb Z.leb Z.compare Pos.compare Pos.compare_cont Pos.eqb andb negb
        CompOpp].

(** The same for the statements about the registration calls. *)
Ltac run_calls :=
  lazy [upcoming_rets pad_rets first_nonzero calls_made registration_calls call_event
        registration_failure_line installed install
        sa_normal sa_ignored sa_segfault sa_hup
        w_trace w_log w_disp w_status w_mutex w_threads w_rets w_refresh
        w_sched
        take zip_with foldl fmap option_fmap option_map
        Nat.ltb Nat.leb
        SIGHUP SIGINT SIGQUIT SIGABRT SIGBUS SIGFPE SIGKILL SIGSEGV SIGPIPE
        SIGALRM SIGTERM SIGSTOP SIGSYS
        Z.eqb Pos.eqb].

(** Case analysis on the next return code: none scripted, zero, non-zero. *)
Ltac next_ret rets :=
  let r := fresh "r" in
  let p := fresh "p" in
  destruct rets as [|r rets];
  [|destruct r as [|p|p]].

Ltac start_leaf :=
  eexists _, _; split; [run_world; reflexivity|];
  run_calls; repeat split;
  rewrite <- ?app_assoc; reflexivity.

(** What [signal_start] does, by the return codes of its calls: it makes
    the calls in order up to and including the first that fails, installs
    what the successful ones ask for, and changes nothing else but the
    log. *)
Lemma signal_start_run (fuel : nat) (w : world) :
  let rs := upcoming_rets 14 w in
  ∃ b w',
    exec fuel signal_start w = Returned b w' ∧
    match first_nonzero rs with
    | None =>
      b = true ∧
      w_trace w' = w_trace w ++ calls_made registration_calls rs ∧
      w_log w' = w_log w ∧
      w_disp w' = installed (calls_made registration_calls rs) (w_disp w)
    | Some k =>
      b = false ∧
      w_trace w' = w_trace w
        ++ calls_made (take (S k) registration_calls) rs
        ++ [EvLog (registration_failure_line k)] ∧
      w_log w' = w_log w ++ [registration_failure_line k] ∧
      w_disp w' =
        installed (calls_made (take (S k) registration_calls) rs) (w_disp w)
    end.
Proof.
  destruct w as [tr lg dp st mx th rets rf sc].
  do 14 (next_ret rets; [start_leaf| |start_leaf|start_leaf]).
  start_leaf.
Qed.

Lemma all_zero_iff (b : bool) (l : list Z) (P : Prop) :
  (b = true ↔ first_nonzero l = None) ∧ P →
  (b = true ↔ Forall (λ r, r = 0) l) ∧ P.
Proof. by rewrite first_nonzero_None. Qed.

Ltac thread_leaf :=
  eexists _, _; split; [run_world; reflexivity|];
  lazy zeta; apply all_zero_iff;
  simpl; rewrite ?app_nil_r; by repeat split.

(** The per-thread entry point reports the same way: true exactly when its
    [sigemptyset] and its [sigaction] for SIGALRM both return zero, one log
    line and false otherwise. *)
Lemma signal_thread_start_run (fuel : nat) (w : world) :
  let rs := upcoming_rets 2 w in
  ∃ b w',
    exec fuel signal_thread_start w = Returned b w' ∧
    (b = true ↔ Forall (λ r, r = 0) rs) ∧
    w_log w' = w_log w ++
      (if b then []
       else [mk_log_line M_LOG_INFO false msg_setup_thread_status None]).
Proof.
  destruct w as [tr lg dp st mx th rets rf sc].
  do 2 (next_ret rets; [thread_leaf| |thread_leaf|thread_leaf]).
  thread_leaf.
Qed.

(** C4. [signal_start] returns true exactly when each of its fourteen
    registration calls (four [sigemptyset], ten [sigaction]) returns zero.
    When a call fails, the calls made are those up to and including the
    failing one and no later one, the failure is logged with the line of the
    group, and false is returned; when none fails, all fourteen are made
    and nothing is logged. *)
Theorem signal_start_all_or_nothing (fuel : nat) (w : world) :
  let rs := upcoming_rets 14 w in
  ∃ b w',
    exec fuel signal_start w = Returned b w' ∧
    (b = true ↔ Forall (λ r, r = 0) rs) ∧
    match first_nonzero rs with
    | None =>
      w_trace w' = w_trace w ++ calls_made registration_calls rs ∧
      w_log w' = w_log w
    | Some k =>
      b = false ∧
      w_trace w' = w_trace w
        ++ calls_made (take (S k) registration_calls) rs
        ++ [EvLog (registration_failure_line k)] ∧
      w_log w' = w_log w ++ [registration_failure_line k]
    end.
Proof.
  intros rs. destruct (signal_start_run fuel w) as (b & w' & Hrun & H).
  fold rs in H. exists b, w'. split; [exact Hrun|].
  rewrite <- first_nonzero_None.
  destruct (first_nonzero rs) as [k|].
  - destruct H as (-> & Ht & Hl & _). by repeat split.
  - destruct H as (-> & Ht & Hl & _). by repeat split.
Qed.

(** ** What stays in the disposition table *)

Section Installed.

Implicit Types (evs : list event) (d : gmap Z struct_sigaction).

Lemma installed_cons e evs d :
  installed (e :: evs) d = installed evs (install d e).
Proof. reflexivity. Qed.

Lemma installed_other evs d s :
  s ∉ event_signums evs → installed evs d !! s = d !! s.
Proof.
  revert d. induction evs as [|e evs IH]; intros d Hs; [done|].
  rewrite installed_cons.
  destruct e; simpl in Hs; try (by rewrite IH).
  apply not_elem_of_cons in Hs as [Hne Hs].
  rewrite IH by done. simpl.
  destruct (ret =? 0); [|done]. by rewrite lookup_insert_ne.
Qed.

Lemma installed_lookup evs d s a :
  NoDup (event_signums evs) →
  EvSigaction s a 0 ∈ evs →
  installed evs d !! s = Some a.
Proof.
  revert d. induction evs as [|e evs IH]; intros d Hnd Hin.
  { by apply not_elem_of_nil in Hin. }
  rewrite installed_cons.
  apply elem_of_cons in Hin as [<-|Hin].
  - simpl in Hnd. apply NoDup_cons in Hnd as [Hs _].
    rewrite installed_other by done. simpl. by rewrite lookup_insert_eq.
  - apply IH; [|done].
    destruct e; simpl in Hnd; try done. by apply NoDup_cons in Hnd as [_ ?].
Qed.

Lemma calls_made_signums (cs : list (option (Z * struct_sigaction)))
    (rs : list Z) :
  event_signums (calls_made cs rs) `sublist_of` call_signums cs.
Proof.
  revert rs. induction cs as [|c cs IH]; intros [|r rs]; simpl;
    try apply sublist_nil_l.
  destruct c as [[s a]|]; simpl.
  - apply sublist_skip, IH.
  - apply IH.
Qed.

Lemma call_signums_take (cs : list (option (Z * struct_sigaction))) n :
  call_signums (take n cs) `sublist_of` call_signums cs.
Proof.
  revert n. induction cs as [|c cs IH]; intros [|n]; simpl;
    try apply sublist_nil_l.
  destruct c as [[s a]|]; simpl.
  - apply sublist_skip, IH.
  - apply IH.
Qed.

Lemma registration_signums_NoDup : NoDup (call_signums registration_calls).
Proof. refine (bool_decide_unpack _ _). by vm_compute. Qed.

Lemma registration_prefix_NoDup n rs :
  NoDup (event_signums (calls_made (take n registration_calls) rs)).
Proof.
  eapply sublist_NoDup; [apply registration_signums_NoDup|].
  etrans; [apply calls_made_signums|apply call_signums_take].
Qed.

Lemma first_nonzero_before rs k i :
  first_nonzero rs = Some k → (i < k)%nat → rs !! i = Some 0.
Proof.
  revert k i. induction rs as [|r rs IH]; intros k i; simpl; [done|].
  destruct (Z.eqb_spec r 0) as [->|Hr].
  - destruct (first_nonzero rs) as [k'|]; [|done].
    intros [= <-] Hi. destruct i as [|i]; [done|].
    simpl. apply (IH k'); [done|lia].
  - intros [= <-] Hi. lia.
Qed.

Lemma first_nonzero_all rs i :
  first_nonzero rs = None → (i < length rs)%nat → rs !! i = Some 0.
Proof.
  intros Hz%first_nonzero_None Hi.
  destruct (lookup_lt_is_Some_2 rs i Hi) as [r Hr].
  rewrite Hr. f_equal. exact (Forall_lookup_1 _ rs i r Hz Hr).
Qed.

Lemma length_pad_rets n rs : length (pad_rets n rs) = n.
Proof.
  revert rs. induction n as [|n IH]; intros rs; [done|].
  destruct rs; simpl; by rewrite IH.
Qed.

Lemma calls_made_lookup (cs : list (option (Z * struct_sigaction))) rs i s a :
  cs !! i = Some (Some (s, a)) → rs !! i = Some 0 →
  EvSigaction s a 0 ∈ calls_made cs rs.
Proof.
  intros Hc Hr. apply (list_elem_of_lookup_2 _ i).
  unfold calls_made. rewrite lookup_zip_with, Hc. simpl. by rewrite Hr.
Qed.

(** After a successful bootstrap every registration is in the table. *)
Lemma signal_start_installs fuel w w' i s a :
  exec fuel signal_start w = Returned true w' →
  registration_calls !! i = Some (Some (s, a)) →
  w_disp w' !! s = Some a.
Proof.
  intros Hrun Hc.
  destruct (signal_start_run fuel w) as (b & w1 & Hrun1 & H).
  rewrite Hrun in Hrun1. injection Hrun1 as <- <-.
  destruct (first_nonzero _) as [k|] eqn:Hk; [by destruct H|].
  destruct H as (_ & _ & _ & ->).
  apply installed_lookup.
  - rewrite <- (take_ge registration_calls 14) by done.
    apply registration_prefix_NoDup.
  - apply (calls_made_lookup _ _ i); [done|].
    apply first_nonzero_all; [done|].
    unfold upcoming_rets. rewrite length_pad_rets.
    apply lookup_lt_Some in Hc. exact Hc.
Qed.

(** After a successful bootstrap the three termination signals have the
    shutdown handler and SIGHUP has the reload handler. *)
Lemma termination_signals_registered fuel w w' s :
  exec fuel signal_start w = Returned true w' →
  s ∈ termination_signals →
  w_disp w' !! s = Some sa_normal.
Proof.
  intros Hrun Hs. unfold termination_signals in Hs.
  rewrite !elem_of_cons, elem_of_nil in Hs.
  destruct Hs as [-> | [-> | [-> | []]]].
  - by apply (signal_start_installs fuel w w' 1).
  - by apply (signal_start_installs fuel w w' 2).
  - by apply (signal_start_installs fuel w w' 3).
Qed.

Lemma reload_signal_registered fuel w w' :
  exec fuel signal_start w = Returned true w' →
  w_disp w' !! SIGHUP = Some sa_hup.
Proof. intros Hrun. by apply (signal_start_installs fuel w w' 13). Qed.

End Installed.

(** C9. When [signal_start] returns false because its call number [k]
    failed, what each earlier [sigaction] installed is still in the
    disposition table: nothing is rolled back. *)
Theorem signal_start_no_rollback (fuel : nat) (w w' : world) (k : nat) :
  exec fuel signal_start w = Returned false w' →
  first_nonzero (upcoming_rets 14 w) = Some k →
  ∀ i s a,
    (i < k)%nat →
    registration_calls !! i = Some (Some (s, a)) →
    w_disp w' !! s = Some a.
Proof.
  intros Hrun Hk i s a Hi Hc.
  destruct (signal_start_run fuel w) as (b & w1 & Hrun1 & H).
  rewrite Hrun in Hrun1. injection Hrun1 as <- <-.
  rewrite Hk in H. destruct H as (_ & _ & _ & ->).
  apply installed_lookup; [apply registration_prefix_NoDup|].
  apply (calls_made_lookup _ _ i).
  - rewrite lookup_take_lt by lia. exact Hc.
  - by apply (first_nonzero_before _ k).
Qed.

(** The example of C9: the [sigaction] for SIGPIPE fails, the shutdown
    handler stays installed for SIGINT, SIGQUIT and SIGTERM. *)
Lemma signal_start_no_rollback_witness :
  ∃ w',
    exec 0 signal_start (set_rets [0; 0; 0; 0; 0; -1] world0)
      = Returned false w' ∧
    w_disp w' !! SIGINT = Some sa_normal ∧
    w_disp w' !! SIGQUIT = Some sa_normal ∧
    w_disp w' !! SIGTERM = Some sa_normal.
Proof.
  eexists. split; [run_world; reflexivity|].
  pose proof (signal_start_no_rollback 0
                (set_rets [0; 0; 0; 0; 0; -1] world0) _ 5
                ltac:(run_world; reflexivity) eq_refl) as H.
  split; [|split].
  - apply (H 1%nat); [lia|reflexivity].
  - apply (H 2%nat); [lia|reflexivity].
  - apply (H 3%nat); [lia|reflexivity].
Defined.

(** ** Delivery of a signal *)

Section Delivery.

Lemma deliver_in_eq fault fuel mask how s w :
  deliver_in fault fuel mask how s w =
    if held_back mask how s
    then Returned tt (emit (EvPending s) w)
    else if forced mask how s w
    then default_action s (set_default s w)
    else
      match w_disp w !! s with
      | None => default_action s w
      | Some act =>
        match sa_handler act with
        | SIG_DFL => default_action s w
        | SIG_IGN => Returned tt w
        | Handler f =>
          match fuel with
          | O => OutOfFuel
          | S fuel' =>
            run fault (deliver_in fault fuel' (s :: sa_mask act ++ mask))
              (handler_body f s)
              (emit (EvEnter f s)
                 (if has_resethand act
                  then set_disp (<[s := set_sa_handler SIG_DFL act]> (w_disp w)) w
                  else w))
          end
        end
      end.
Proof. destruct fuel; reflexivity. Qed.

Lemma blocked_here mask s : blocked (s :: mask) s = true.
Proof. unfold blocked. simpl. by rewrite Z.eqb_refl. Qed.

(** A signal raised while it is blocked: by [raise], and by a fault. *)
Lemma deliver_in_blocked fault fuel mask s w :
  blocked mask s = true →
  deliver_in fault fuel mask Raise s w = Returned tt (emit (EvPending s) w).
Proof. intros Hb. rewrite deliver_in_eq. simpl. by rewrite Hb. Qed.

Lemma deliver_in_forced fault fuel mask s w :
  blocked mask s = true →
  deliver_in fault fuel mask Fault s w = default_action s (set_default s w).
Proof. intros Hb. rewrite deliver_in_eq. simpl. by rewrite Hb. Qed.

(** A signal that is not held back, when the table has the default
    disposition for it, when it ignores it, and when it has a handler. *)
Lemma deliver_in_default fault fuel mask how s w act :
  held_back mask how s = false → forced mask how s w = false →
  w_disp w !! s = Some act → sa_handler act = SIG_DFL →
  deliver_in fault fuel mask how s w = default_action s w.
Proof. intros Hb Hf Hd Hh. by rewrite deliver_in_eq, Hb, Hf, Hd, Hh. Qed.

Lemma deliver_default fault fuel s w act :
  w_disp w !! s = Some act → sa_handler act = SIG_DFL →
  deliver fault fuel s w = default_action s w.
Proof. by apply deliver_in_default. Qed.

Lemma deliver_ignored fault fuel s w act :
  w_disp w !! s = Some act → sa_handler act = SIG_IGN →
  deliver fault fuel s w = Returned tt w.
Proof.
  intros Hd Hh. unfold deliver. rewrite deliver_in_eq, Hd, Hh. reflexivity.
Qed.

Lemma deliver_handler fault fuel s w act h :
  w_disp w !! s = Some act → sa_handler act = Handler h →
  deliver fault (S fuel) s w =
    run fault (deliver_in fault fuel (s :: sa_mask act ++ [])) (handler_body h s)
      (emit (EvEnter h s)
         (if has_resethand act
          then set_disp (<[s := set_sa_handler SIG_DFL act]> (w_disp w)) w
          else w)).
Proof.
  intros Hd Hh. unfold deliver. rewrite deliver_in_eq, Hd, Hh. reflexivity.
Qed.

End Delivery.

#[local] Arguments deliver_in : simpl never.
#[local] Arguments deliver : simpl never.

(** C8. After a successful [signal_start] the disposition of SIGPIPE is
    the explicit ignore, and SIGPIPE delivered any number of times leaves
    the process running in the very world it was in: nothing is logged,
    no handler is entered, nothing is killed. *)
Theorem sigpipe_ignored (fuel : nat) (w w' : world) :
  exec fuel signal_start w = Returned true w' →
  w_disp w' !! SIGPIPE = Some sa_ignored ∧
  ∀ fuel' n, deliver_n fuel' n SIGPIPE w' = Returned tt w'.
Proof.
  intros Hrun.
  assert (w_disp w' !! SIGPIPE = Some sa_ignored) as Hd.
  { by apply (signal_start_installs fuel w w' 5). }
  split; [exact Hd|].
  intros fuel' n. induction n as [|n IH]; [done|].
  simpl. by rewrite (deliver_ignored _ _ _ _ sa_ignored Hd eq_refl).
Qed.

(** A fresh process, bootstrapped, receiving SIGPIPE three times. *)
Lemma sigpipe_ignored_witness :
  ∃ w',
    exec 0 signal_start world0 = Returned true w' ∧
    w_disp w' !! SIGPIPE = Some sa_ignored ∧
    deliver_n 1 3 SIGPIPE w' = Returned tt w'.
Proof.
  eexists. split; [run_world; reflexivity|].
  destruct (sigpipe_ignored 0 world0 _ ltac:(run_world; reflexivity))
    as [Hd Hn].
  split; [exact Hd|apply Hn].
Defined.

(** ** The reload handler, sequentially *)

(** C6. Entered with the reload mutex free, [signal_refresh] takes the
    mutex, calls [http_content_refresh], logs one line (of error severity
    if the refresh returned false, informational if it returned true),
    releases the mutex and returns: whatever the refresh returned, the
    outcome is a normal return, never the death of the process. *)
Theorem signal_refresh_logs (signal : Z) (fuel : nat) (w : world) :
  w_mutex w = false →
  let ok := (pop_refresh w).1 in
  let line :=
    if ok then mk_log_line M_LOG_INFO false msg_refresh_ok None
    else mk_log_line M_LOG_ERROR false msg_refresh_error None in
  ∃ w',
    exec fuel (signal_refresh signal) w = Returned tt w' ∧
    w_trace w' = w_trace w ++
      [ EvMutexLock sig_hup_mutex; EvRefresh ok; EvLog line;
        EvMutexUnlock sig_hup_mutex ] ∧
    w_log w' = w_log w ++ [line] ∧
    w_mutex w' = false.
Proof.
  destruct w as [tr lg dp st mx th rets rf sc]. simpl. intros ->.
  destruct rf as [|[] rf]; (eexists; split; [run_world; reflexivity|]);
    simpl; rewrite <- ?app_assoc; done.
Qed.

(** A refresh that fails: the error line, the mutex released, a normal
    return. *)
Lemma signal_refresh_logs_witness :
  ∃ w',
    exec 0 (signal_refresh SIGHUP) (set_refresh [false] world0)
      = Returned tt w' ∧
    w_log w' = [mk_log_line M_LOG_ERROR false msg_refresh_error None] ∧
    w_mutex w' = false.
Proof.
  destruct (signal_refresh_logs SIGHUP 0 (set_refresh [false] world0) eq_refl)
    as (w' & Hrun & _ & Hlog & Hm).
  exists w'. split; [exact Hrun|]. split; [exact Hlog|exact Hm].
Defined.

(** C10. [signal_refresh] does not read its argument: for any two signal
    numbers it is the same program, and run from the same world it makes
    the same calls and ends the same way. *)
Theorem signal_refresh_ignores_signal (s1 s2 : Z) :
  signal_refresh s1 = signal_refresh s2 ∧
  ∀ fault raise w,
    run fault raise (signal_refresh s1) w
      = run fault raise (signal_refresh s2) w.
Proof. split; reflexivity. Qed.

(** ** The per-thread interrupt handler *)

(** C7. [signal_status] returns in every world and leaves the Shutdown
    Status as it found it. It logs one informational line, naming the
    signal, when the status is [Running], and nothing when a shutdown is
    in progress. *)
Theorem signal_status_logs_when_running (signal : Z) (fuel : nat) (w : world) :
  ∃ w',
    exec fuel (signal_status signal) w = Returned tt w' ∧
    w_status w' = w_status w ∧
    match w_status w with
    | Running =>
      w_log w' = w_log w ++
        [mk_log_line M_LOG_INFO false msg_status (Some signal)]
    | Draining | Stopped => w_log w' = w_log w
    end.
Proof.
  destruct w as [tr lg dp st mx th rets rf sc].
  destruct st; (eexists; split; [run_world; reflexivity|]); done.
Qed.

(** ** The crash handler *)

Ltac run_crash :=
  lazy [run sem sem_log sem_sigemptyset sem_sigaction write_log emit
        bind call signal_segfault segfault_tail sigemptyset_mask log_options
        pop_ret upcoming_rets pad_rets
        set_trace set_log set_disp set_rets
        w_trace w_log w_disp w_status w_mutex w_threads w_rets w_refresh
        w_sched
        valid_signum mm_wipe set_sa_handler set_sa_flags set_sa_mask
        sa_handler sa_flags sa_mask sa_clear
        SIGABRT SIGKILL SIGSTOP
        Z.eqb Z.leb Z.compare Pos.compare Pos.compare_cont Pos.eqb andb negb
        CompOpp].

Ltac crash_leaf raise :=
  eexists _, _, _; split; [reflexivity|];
  split;
  [ run_crash;
    lazymatch goal with
    | |- match sem_abort raise ?W with _ => _ end = aborted raise ?E =>
      unify E W; unfold aborted;
      destruct (sem_abort raise W) as [[]| | |]; reflexivity
    end
  | run_crash; repeat split; rewrite <- ?app_assoc; reflexivity ].

Section Crash.

Lemma signal_segfault_no_return fault raise signal w w' :
  run fault raise (signal_segfault signal) w ≠ Returned tt w'.
Proof.
  unfold signal_segfault, log_options, sigemptyset_mask. simpl.
  destruct (sem_log fault raise _ w) as [[] w1| | |]; try done.
  unfold sem_sigemptyset. destruct (pop_ret w1) as [r1 w2]. simpl.
  unfold sem_sigaction. simpl. destruct (pop_ret _) as [r2 w3].
  simpl.
  match goal with
  | |- context [sem_abort raise ?x] =>
    destruct (sem_abort raise x) as [[]| | |]
  end; done.
Qed.

Lemma fatal_signals_cases f :
  f ∈ fatal_signals →
  f = SIGSEGV ∨ f = SIGFPE ∨ f = SIGBUS ∨ f = SIGSYS ∨ f = SIGABRT.
Proof.
  unfold fatal_signals. rewrite !elem_of_cons, elem_of_nil. tauto.
Qed.

Lemma fatal_signals_registered f :
  f ∈ fatal_signals →
  ∃ i, registration_calls !! i = Some (Some (f, sa_segfault)).
Proof.
  intros [-> | [-> | [-> | [-> | ->]]]]%fatal_signals_cases.
  - by exists 7%nat.
  - by exists 8%nat.
  - by exists 9%nat.
  - by exists 10%nat.
  - by exists 11%nat.
Qed.

Lemma fatal_signals_kill f : f ∈ fatal_signals → default_kills f = true.
Proof.
  by intros [-> | [-> | [-> | [-> | ->]]]]%fatal_signals_cases.
Qed.

Lemma fatal_SIGABRT : SIGABRT ∈ fatal_signals.
Proof. unfold fatal_signals. rewrite !elem_of_cons. tauto. Qed.

(** Every fatal signal has the crash handler installed, one-shot. *)
Lemma crash_armed fuel w w1 g :
  exec fuel signal_start w = Returned true w1 →
  g ∈ fatal_signals →
  w_disp w1 !! g = Some sa_segfault.
Proof.
  intros Hrun Hg. destruct (fatal_signals_registered g Hg) as [i Hi].
  by apply (signal_start_installs fuel w w1 i).
Qed.

(** Of the handlers of [signal.c] only [signal_segfault] raises a signal:
    what the others do does not depend on what raising a signal does. *)
Lemma returning_handlers_do_not_raise h fault raise raise' s w :
  h ≠ fn_signal_segfault →
  run fault raise (handler_body h s) w = run fault raise' (handler_body h s) w.
Proof.
  destruct h; [done| | |]; intros _; unfold handler_body.
  - rewrite !run_signal_shutdown.
    by destruct (sem_thread_launch fault status_signal _).
  - unfold signal_status. simpl.
    destruct (status_running w); [|done]. simpl.
    by rewrite !sem_log_plain.
  - unfold signal_refresh. simpl. unfold sem_mutex_lock.
    destruct (w_mutex w); [done|]. simpl. unfold sem_refresh.
    destruct (pop_refresh _) as [[] w1]; simpl; by rewrite !sem_log_plain.
Qed.

(** [signal_segfault] is its log call followed by the rest. *)
Lemma run_signal_segfault fault raise signal w :
  run fault raise (signal_segfault signal) w =
    match sem_log fault raise (segfault_line signal) w with
    | Returned _ w1 => run fault raise segfault_tail w1
    | Terminated sg w1 => Terminated sg w1
    | Blocked w1 => Blocked w1
    | OutOfFuel => OutOfFuel
    end.
Proof. reflexivity. Qed.

(** The rest of [signal_segfault] up to its [abort]: the two calls with
    the return codes [r1] and [r2] they get, and the default disposition
    of SIGABRT installed if the [sigaction] returned zero. *)
Lemma segfault_tail_run fault raise (w : world) :
  ∃ r1 r2 w3,
    upcoming_rets 2 w = [r1; r2] ∧
    run fault raise segfault_tail w = aborted raise w3 ∧
    w_trace w3 = w_trace w ++
      [EvSigemptyset r1; EvSigaction SIGABRT sa_clear r2] ∧
    w_log w3 = w_log w ∧
    w_disp w3 =
      (if r2 =? 0 then <[SIGABRT := sa_clear]> (w_disp w) else w_disp w).
Proof.
  destruct w as [tr lg dp st mx th rets rf sc].
  destruct rets as [|[|p1|p1] [|[|p2|p2] rets]]; crash_leaf raise.
Qed.

(** One pass through [signal_segfault] up to its [abort], when the
    logging path does not crash. *)
Lemma signal_segfault_pass raise (signal : Z) (w : world) :
  ∃ r1 r2 w3,
    upcoming_rets 2 w = [r1; r2] ∧
    run None raise (signal_segfault signal) w = aborted raise w3 ∧
    w_trace w3 = w_trace w ++
      [ EvLog (segfault_line signal);
        EvSigemptyset r1;
        EvSigaction SIGABRT sa_clear r2 ] ∧
    w_log w3 = w_log w ++ [segfault_line signal] ∧
    w_disp w3 =
      (if r2 =? 0 then <[SIGABRT := sa_clear]> (w_disp w) else w_disp w).
Proof.
  destruct (segfault_tail_run None raise (write_log (segfault_line signal) w))
    as (r1 & r2 & w3 & Hr & Hrun & Ht & Hl & Hd).
  exists r1, r2, w3. split; [exact Hr|]. split; [exact Hrun|].
  split; [|split; [exact Hl|exact Hd]].
  rewrite Ht. simpl. by rewrite <- app_assoc.
Qed.

Lemma aborted_eq raise w :
  aborted raise w =
    match raise Unblocked SIGABRT (emit EvAbort w) with
    | Returned _ w1 => Terminated SIGABRT (emit (EvKilled SIGABRT) w1)
    | Terminated s w1 => Terminated s w1
    | Blocked w1 => Blocked w1
    | OutOfFuel => OutOfFuel
    end.
Proof.
  unfold aborted, sem_abort.
  by destruct (raise Unblocked SIGABRT (emit EvAbort w)).
Qed.

(** [abort] where SIGABRT has the default disposition: the process is
    killed by SIGABRT, no handler is entered. *)
Lemma aborted_default fault fuel mask w act :
  w_disp w !! SIGABRT = Some act → sa_handler act = SIG_DFL →
  aborted (deliver_in fault fuel mask) w =
    Terminated SIGABRT (emit (EvKilled SIGABRT) (emit EvAbort w)).
Proof.
  intros Hd Hh. rewrite aborted_eq.
  by rewrite (deliver_in_default fault fuel mask Unblocked SIGABRT
                (emit EvAbort w) act).
Qed.

(** *** Fatal signals that still have their handler *)

Lemma armed_insert_default d s act g :
  sa_handler act = SIG_DFL →
  armed (<[s := act]> d) g = true → armed d g = true ∧ g ≠ s.
Proof.
  intros Hact. unfold armed. destruct (decide (g = s)) as [->|Hne].
  - by rewrite lookup_insert_eq, Hact.
  - by rewrite lookup_insert_ne.
Qed.

Lemma count_armed_insert_le d s act l :
  sa_handler act = SIG_DFL →
  (count_armed (<[s := act]> d) l ≤ count_armed d l)%nat.
Proof.
  intros Hact. induction l as [|g l IH]; [done|]. simpl.
  destruct (armed (<[s := act]> d) g) eqn:Hg.
  - apply (armed_insert_default _ _ _ _ Hact) in Hg as [-> _]. lia.
  - destruct (armed d g); lia.
Qed.

Lemma count_armed_insert_lt d s act l :
  sa_handler act = SIG_DFL → s ∈ l → armed d s = true →
  (count_armed (<[s := act]> d) l < count_armed d l)%nat.
Proof.
  intros Hact Hs Harm. induction l as [|g l IH].
  { by apply not_elem_of_nil in Hs. }
  simpl. pose proof (count_armed_insert_le d s act l Hact) as Hle.
  destruct (decide (g = s)) as [->|Hne].
  - rewrite Harm. unfold armed at 1. rewrite lookup_insert_eq, Hact. lia.
  - apply elem_of_cons in Hs as [->|Hs]; [done|]. specialize (IH Hs).
    destruct (armed (<[s := act]> d) g) eqn:Hg.
    + apply (armed_insert_default _ _ _ _ Hact) in Hg as [-> _]. lia.
    + destruct (armed d g); lia.
Qed.

Lemma count_armed_le_length d l : (count_armed d l ≤ length l)%nat.
Proof.
  induction l as [|g l IH]; [done|]. simpl. destruct (armed d g); lia.
Qed.

Lemma crash_table_insert d s act :
  sa_handler act = SIG_DFL → crash_table d → crash_table (<[s := act]> d).
Proof.
  intros Hact Hd g a Hg. destruct (decide (g = s)) as [->|Hne].
  - rewrite lookup_insert_eq. intros [= <-]. by left.
  - rewrite lookup_insert_ne by done. by apply Hd.
Qed.

(** After the bootstrap the table is as [crash_table] asks. *)
Lemma signal_start_crash_table fuel w w1 :
  exec fuel signal_start w = Returned true w1 → crash_table (w_disp w1).
Proof.
  intros Hrun g act Hg Hd.
  rewrite (crash_armed fuel w w1 g Hrun Hg) in Hd. injection Hd as <-.
  by right.
Qed.

(** *** No endless loop *)

(** An outcome reached from a later world is one of the earlier world, if
    no handler was entered in between and no handler was installed. *)
Lemma crash_outcome_mono w W pre o :
  w_trace W = w_trace w ++ pre →
  entered pre = [] →
  (∀ g, armed (w_disp W) g = true → armed (w_disp w) g = true) →
  crash_outcome W o → crash_outcome w o.
Proof.
  intros Ht Hpre Harm. destruct o as [| sg w' | |]; try done.
  intros (Hsg & evs & Hevs & Hnd & Hin). split; [done|].
  exists (pre ++ evs). split; [by rewrite Hevs, Ht, app_assoc|].
  rewrite entered_app, Hpre. simpl. split; [done|].
  intros g Hg. destruct (Hin g Hg). split; [done|]. by apply Harm.
Qed.

Lemma crash_abort n raise w :
  crash_raise_ok n raise →
  crash_table (w_disp w) → (armed_count (w_disp w) ≤ n)%nat →
  crash_outcome w (aborted raise w).
Proof.
  intros Hraise Hct Hn. rewrite aborted_eq.
  pose proof (Hraise Unblocked SIGABRT (emit EvAbort w) fatal_SIGABRT Hct Hn)
    as H.
  destruct (raise Unblocked SIGABRT (emit EvAbort w)) as [[] w1|sg w1|w1|];
    try done.
  - by destruct H.
  - by apply (crash_outcome_mono w (emit EvAbort w) [EvAbort]).
Qed.

(** One invocation of the crash handler: whatever its calls return and
    whatever is raised inside, it ends with the process killed. *)
Lemma crash_pass fault raise n s w :
  fatal_faults fault → crash_raise_ok n raise →
  crash_table (w_disp w) → (armed_count (w_disp w) ≤ n)%nat →
  crash_outcome w (run fault raise (signal_segfault s) w).
Proof.
  intros Hfault Hraise Hct Hn.
  assert (∀ W pre,
            w_trace W = w_trace w ++ pre → entered pre = [] →
            w_disp W = w_disp w →
            crash_outcome w (run fault raise segfault_tail W)) as Htail.
  { intros W pre HtW Hpre HdW.
    destruct (segfault_tail_run fault raise W)
      as (r1 & r2 & w3 & _ & Hrun & Ht3 & _ & Hd3).
    rewrite Hrun.
    assert (∀ g, armed (w_disp w3) g = true → armed (w_disp w) g = true)
      as Harm.
    { intros g. rewrite Hd3, HdW. destruct (r2 =? 0); [|done].
      intros Hg. by apply (armed_insert_default _ SIGABRT sa_clear) in Hg as [? _]. }
    apply (crash_outcome_mono w w3
             (pre ++ [EvSigemptyset r1; EvSigaction SIGABRT sa_clear r2])).
    - by rewrite Ht3, HtW, app_assoc.
    - by rewrite entered_app, Hpre.
    - exact Harm.
    - apply (crash_abort n); [done| |].
      + rewrite Hd3, HdW. destruct (r2 =? 0); [|done].
        by apply crash_table_insert.
      + rewrite Hd3, HdW. destruct (r2 =? 0); [|done].
        etrans; [by apply count_armed_insert_le|done]. }
  rewrite run_signal_segfault. unfold sem_log.
  destruct (fault_signal fault (segfault_line s) w) as [[how g]|] eqn:Hg.
  - assert (g ∈ fatal_signals) as Hgf.
    { unfold fault_signal in Hg. destruct fault as [fs|]; [|done].
      simpl in Hg. by eapply Hfault. }
    pose proof (Hraise how g w Hgf Hct Hn) as H.
    destruct (raise how g w) as [[] w1|sg w1|w1|]; try done.
    destruct H as [_ ->].
    apply (Htail _ [EvPending g; EvLog (segfault_line s)]); try done.
    simpl. by rewrite <- app_assoc.
  - by apply (Htail _ [EvLog (segfault_line s)]).
Qed.

(** The kernel starts the crash handler for [s], which has its one-shot
    disposition: the handler runs with [s] blocked and put back to the
    default. *)
Lemma crash_enter fault fuel mask s w :
  fatal_faults fault →
  crash_raise_ok fuel
    (deliver_in fault fuel (s :: sa_mask sa_segfault ++ mask)) →
  s ∈ fatal_signals →
  w_disp w !! s = Some sa_segfault →
  crash_table (w_disp w) → (armed_count (w_disp w) ≤ S fuel)%nat →
  crash_outcome w
    (run fault (deliver_in fault fuel (s :: sa_mask sa_segfault ++ mask))
       (signal_segfault s)
       (emit (EvEnter fn_signal_segfault s)
          (set_disp (<[s := set_sa_handler SIG_DFL sa_segfault]> (w_disp w))
             w))).
Proof.
  intros Hfault Hraise Hs Hd Hct Hn.
  assert (armed (w_disp w) s = true) as Harm.
  { unfold armed. by rewrite Hd. }
  match goal with
  | |- crash_outcome _ (run _ ?r _ ?W) =>
    pose proof (crash_pass fault r fuel s W Hfault Hraise) as H;
    destruct (run fault r (signal_segfault s) W) as [| sg w' | |]
  end.
  - apply H.
    + by apply crash_table_insert.
    + simpl. pose proof (count_armed_insert_lt (w_disp w) s
                           (set_sa_handler SIG_DFL sa_segfault)
                           fatal_signals eq_refl Hs Harm).
      unfold armed_count in *. lia.
  - destruct H as (Hsg & evs & Hevs & Hnd & Hin).
    + by apply crash_table_insert.
    + simpl. pose proof (count_armed_insert_lt (w_disp w) s
                           (set_sa_handler SIG_DFL sa_segfault)
                           fatal_signals eq_refl Hs Harm).
      unfold armed_count in *. lia.
    + split; [done|]. exists (EvEnter fn_signal_segfault s :: evs).
      split; [rewrite Hevs; simpl; by rewrite <- app_assoc|].
      simpl. split.
      * apply NoDup_cons. split; [|done]. intros Hin'.
        destruct (Hin s Hin') as [_ Hs'].
        by apply (armed_insert_default (w_disp w) s
                    (set_sa_handler SIG_DFL sa_segfault) s eq_refl)
          in Hs' as [_ ?].
      * intros g [->|Hg]%elem_of_cons; [done|].
        destruct (Hin g Hg) as [Hgf Hg'].
        by apply (armed_insert_default (w_disp w) s
                    (set_sa_handler SIG_DFL sa_segfault) g eq_refl)
          in Hg' as [? _].
  - apply H.
    + by apply crash_table_insert.
    + simpl. pose proof (count_armed_insert_lt (w_disp w) s
                           (set_sa_handler SIG_DFL sa_segfault)
                           fatal_signals eq_refl Hs Harm).
      unfold armed_count in *. lia.
  - apply H.
    + by apply crash_table_insert.
    + simpl. pose proof (count_armed_insert_lt (w_disp w) s
                           (set_sa_handler SIG_DFL sa_segfault)
                           fatal_signals eq_refl Hs Harm).
      unfold armed_count in *. lia.
Qed.

(** A fatal signal raised inside the crash handler, in a world where at
    most [fuel] fatal signals still have their handler: it stays pending
    if it is blocked, and it kills the process otherwise, at once or after
    more invocations of the handler, none of them for a signal that has
    been handled before. *)
Lemma crash_outcome_raise w o how s :
  crash_outcome w o → raise_outcome how s w o.
Proof. by destruct o. Qed.

Lemma crash_deliver fault :
  fatal_faults fault →
  ∀ fuel mask, crash_raise_ok fuel (deliver_in fault fuel mask).
Proof.
  intros Hfault fuel.
  induction fuel as [|fuel IH]; intros mask how s w Hs Hct Hn;
    unfold raise_outcome; rewrite deliver_in_eq; fold (raise_outcome how s w);
    (destruct (held_back mask how s) eqn:Hb;
     [split; [by destruct how|done]|]);
    (assert (∀ W, w_trace W = w_trace w →
                  crash_outcome w (default_action s W)) as Hdfl;
     [ intros W HW; unfold default_action; rewrite (fatal_signals_kill s Hs);
       split; [done|]; exists [EvKilled s]; split; [simpl; by rewrite HW|];
       split; [apply NoDup_nil_2|]; intros g Hg; simpl in Hg;
       by apply not_elem_of_nil in Hg
     |]);
    (destruct (forced mask how s w);
     [ apply crash_outcome_raise, Hdfl; unfold set_default;
       by destruct (w_disp w !! s) |]);
    (destruct (w_disp w !! s) as [act|] eqn:Hd;
     [|by apply crash_outcome_raise, Hdfl]);
    (destruct (Hct s act Hs Hd) as [Hact | ->];
     [rewrite Hact; by apply crash_outcome_raise, Hdfl|]);
    change (sa_handler sa_segfault) with (Handler fn_signal_segfault);
    cbv iota.
  - (* no fatal signal has a handler, yet this one does *)
    assert (armed (w_disp w) s = true) as Harm.
    { unfold armed. by rewrite Hd. }
    pose proof (count_armed_insert_lt (w_disp w) s
                  (set_sa_handler SIG_DFL sa_segfault)
                  fatal_signals eq_refl Hs Harm).
    unfold armed_count in *. lia.
  - change (has_resethand sa_segfault) with true. cbv iota.
    apply crash_outcome_raise.
    exact (crash_enter fault fuel mask s w Hfault (IH _) Hs Hd Hct Hn).
Qed.

(** A fatal signal delivered to a thread that blocks none, where the
    signal has the crash handler: the process ends killed by a fatal
    signal, and the handler has been entered once for each of some fatal
    signals. *)
Lemma crash_delivery fault fuel f w :
  fatal_faults fault →
  f ∈ fatal_signals →
  w_disp w !! f = Some sa_segfault →
  crash_table (w_disp w) →
  (armed_count (w_disp w) ≤ S fuel)%nat →
  crash_outcome w (deliver fault (S fuel) f w).
Proof.
  intros Hfault Hf Hd Hct Hn.
  rewrite (deliver_handler _ _ _ _ _ fn_signal_segfault Hd eq_refl).
  change (has_resethand sa_segfault) with true. cbv iota.
  apply crash_enter; try done. by apply crash_deliver.
Qed.

End Crash.

(** C2, as the claim has it, fails. SIGSEGV is delivered to a bootstrapped
    process, and while the handler logs, it runs into a SIGBUS: SIGBUS
    still has its one-shot handler, and the handler is entered a second
    time. *)
Lemma crash_handler_reentered : ¬ never_reenters SIGSEGV SIGBUS world1.
Proof.
  intros H.
  assert (∃ w2,
            deliver (Some (raising Fault SIGBUS)) 2 SIGSEGV world1
              = Terminated SIGBUS w2 ∧
            entered (w_trace w2) = [SIGSEGV; SIGBUS]) as (w2 & Hrun & Hn).
  { eexists. split; vm_compute; reflexivity. }
  apply H in Hrun. rewrite handler_entries_entered, Hn in Hrun.
  vm_compute in Hrun. discriminate.
Qed.

(** C2, amended. Once [signal_start] has succeeded, each fatal signal [f]
    (SIGSEGV, SIGFPE, SIGBUS, SIGSYS, SIGABRT) has [signal_segfault]
    installed with the one-shot flag SA_RESETHAND. When [f] is delivered
    and [f] comes up again inside the handler's logging path, the handler
    is not entered again, [f] being blocked and back to its default
    disposition: raised by a fault, the second occurrence kills the
    process by the default action; raised by [raise], it stays pending and
    the handler goes on. On its course the handler logs, puts SIGABRT
    back to its default disposition and then calls [abort], which kills
    the process by SIGABRT without entering the handler again (for the
    case that the handler's [sigaction] returns zero). Whatever fatal
    signals come up inside the logging path, and whatever the handler's
    calls return, the handler is entered at most once for each fatal
    signal. In no world and with no signal does [signal_segfault]
    return. *)
Theorem crash_handler_once_per_signal (fuel fuel' : nat) (w w1 : world)
    (f : Z) :
  exec fuel signal_start w = Returned true w1 →
  f ∈ fatal_signals →
  (w_disp w1 !! f = Some sa_segfault ∧ has_resethand sa_segfault = true) ∧
  (∃ w2,
     deliver (Some (raising Fault f)) (S fuel') f w1 = Terminated f w2 ∧
     w_trace w2 = w_trace w1 ++
       [EvEnter fn_signal_segfault f; EvKilled f]) ∧
  (∀ r1, upcoming_rets 2 w1 = [r1; 0] →
     ∃ w2,
       deliver (Some (raising Raise f)) (S fuel') f w1
         = Terminated SIGABRT w2 ∧
       w_trace w2 = w_trace w1 ++
         [ EvEnter fn_signal_segfault f;
           EvPending f;
           EvLog (mk_log_line M_LOG_CRITICAL true msg_segfault (Some f));
           EvSigemptyset r1;
           EvSigaction SIGABRT (mk_sigaction SIG_DFL 0 []) 0;
           EvAbort;
           EvKilled SIGABRT ]) ∧
  (∀ r1, upcoming_rets 2 w1 = [r1; 0] →
     ∃ w2,
       deliver None (S fuel') f w1 = Terminated SIGABRT w2 ∧
       w_trace w2 = w_trace w1 ++
         [ EvEnter fn_signal_segfault f;
           EvLog (mk_log_line M_LOG_CRITICAL true msg_segfault (Some f));
           EvSigemptyset r1;
           EvSigaction SIGABRT (mk_sigaction SIG_DFL 0 []) 0;
           EvAbort;
           EvKilled SIGABRT ]) ∧
  (∀ fault, fatal_faults fault →
     ∃ sg w2 evs,
       deliver fault (5 + fuel') f w1 = Terminated sg w2 ∧
       w_trace w2 = w_trace w1 ++ evs ∧
       NoDup (entered evs)) ∧
  (∀ fault raise signal w0 w0',
     run fault raise (signal_segfault signal) w0 ≠ Returned tt w0').
Proof.
  intros Hrun Hf.
  pose proof (crash_armed fuel w w1 f Hrun Hf) as Hd.
  pose proof (fatal_signals_kill f Hf) as Hk.
  split; [by split|].
  assert (∀ fault r1 pre,
            upcoming_rets 2 w1 = [r1; 0] → 
            ∀ W, w_rets W = w_rets w1 →
            w_trace W = w_trace w1 ++ pre →
            ∃ w2,
              run fault (deliver_in fault fuel' (f :: sa_mask sa_segfault ++ []))
                segfault_tail W = Terminated SIGABRT w2 ∧
              w_trace w2 = w_trace w1 ++ pre ++
                [ EvSigemptyset r1;
                  EvSigaction SIGABRT (mk_sigaction SIG_DFL 0 []) 0;
                  EvAbort;
                  EvKilled SIGABRT ]) as Htail.
  { intros fault r1 pre Hr W HrW HtW.
    destruct (segfault_tail_run fault
                (deliver_in fault fuel' (f :: sa_mask sa_segfault ++ [])) W)
      as (r1' & r2' & w3 & Hr' & Hrun3 & Ht3 & _ & Hd3).
    unfold upcoming_rets in Hr, Hr'. rewrite HrW, Hr in Hr'.
    injection Hr' as <- <-. simpl in Hd3.
    rewrite Hrun3, (aborted_default _ _ _ _ sa_clear)
      by (try (rewrite Hd3; apply lookup_insert_eq); done).
    eexists. split; [reflexivity|]. simpl.
    rewrite Ht3, HtW. by rewrite <- !app_assoc. }
  split; [|split; [|split; [|split]]].
  - rewrite (deliver_handler _ _ _ _ _ fn_signal_segfault Hd eq_refl).
    change (has_resethand sa_segfault) with true. cbv iota.
    unfold handler_body. rewrite run_signal_segfault. unfold sem_log.
    change (fault_signal (Some (raising Fault f)) (segfault_line f) ?W)
      with (Some (Fault, f)).
    cbv iota beta. rewrite deliver_in_forced by apply blocked_here.
    unfold default_action. rewrite Hk.
    eexists. split; [reflexivity|].
    unfold set_default. simpl. rewrite lookup_insert_eq. simpl.
    by rewrite <- app_assoc.
  - intros r1 Hr.
    rewrite (deliver_handler _ _ _ _ _ fn_signal_segfault Hd eq_refl).
    change (has_resethand sa_segfault) with true. cbv iota.
    unfold handler_body. rewrite run_signal_segfault. unfold sem_log.
    change (fault_signal (Some (raising Raise f)) (segfault_line f) ?W)
      with (Some (Raise, f)).
    cbv iota beta. rewrite deliver_in_blocked by apply blocked_here.
    destruct (Htail (Some (raising Raise f)) r1
                [ EvEnter fn_signal_segfault f; EvPending f;
                  EvLog (segfault_line f) ] Hr
                (write_log (segfault_line f)
                   (emit (EvPending f)
                      (emit (EvEnter fn_signal_segfault f)
                         (set_disp
                            (<[f := set_sa_handler SIG_DFL sa_segfault]>
                               (w_disp w1)) w1)))))
      as (w2 & Hrun2 & Ht2).
    { reflexivity. }
    { simpl. by rewrite <- !app_assoc. }
    exists w2. split; [exact Hrun2|exact Ht2].
  - intros r1 Hr.
    rewrite (deliver_handler _ _ _ _ _ fn_signal_segfault Hd eq_refl).
    change (has_resethand sa_segfault) with true. cbv iota.
    unfold handler_body. rewrite run_signal_segfault. unfold sem_log.
    change (fault_signal None (segfault_line f) ?W)
      with (@None (raise_kind * Z)).
    cbv iota.
    destruct (Htail None r1
                [ EvEnter fn_signal_segfault f; EvLog (segfault_line f) ] Hr
                (write_log (segfault_line f)
                   (emit (EvEnter fn_signal_segfault f)
                      (set_disp
                         (<[f := set_sa_handler SIG_DFL sa_segfault]>
                            (w_disp w1)) w1))))
      as (w2 & Hrun2 & Ht2).
    { reflexivity. }
    { simpl. by rewrite <- !app_assoc. }
    exists w2. split; [exact Hrun2|exact Ht2].
  - intros fault Hfault.
    assert (armed_count (w_disp w1) ≤ S (4 + fuel'))%nat as Hn.
    { pose proof (count_armed_le_length (w_disp w1) fatal_signals).
      unfold armed_count. simpl in *. lia. }
    pose proof (crash_delivery fault (4 + fuel') f w1 Hfault Hf Hd
                  (signal_start_crash_table fuel w w1 Hrun) Hn) as H.
    change (S (4 + fuel')) with (5 + fuel')%nat in H.
    destruct (deliver fault (5 + fuel') f w1) as [| sg w2 | |]; try done.
    destruct H as (_ & evs & Hevs & Hnd & _).
    by exists sg, w2, evs.
  - apply signal_segfault_no_return.
Qed.

(** SIGSEGV in a bootstrapped process, and SIGSEGV again while the handler
    is logging, by a fault and by [raise]: the handler is entered once. *)
Lemma crash_handler_once_per_signal_witness :
  ∃ w2 w3,
    exec 0 signal_start world0 = Returned true world1 ∧
    deliver (Some (raising Fault SIGSEGV)) 1 SIGSEGV world1
      = Terminated SIGSEGV w2 ∧
    entered (w_trace w2) = [SIGSEGV] ∧
    deliver (Some (raising Raise SIGSEGV)) 1 SIGSEGV world1
      = Terminated SIGABRT w3 ∧
    entered (w_trace w3) = [SIGSEGV].
Proof.
  destruct (crash_handler_once_per_signal 0 0 world0 world1 SIGSEGV)
    as (_ & (w2 & Hrun2 & Ht2) & H & _).
  { vm_compute. reflexivity. }
  { unfold fatal_signals. apply list_elem_of_here. }
  destruct (H 0 eq_refl) as (w3 & Hrun3 & Ht3).
  exists w2, w3. split; [vm_compute; reflexivity|].
  split; [exact Hrun2|]. split; [rewrite Ht2; vm_compute; reflexivity|].
  split; [exact Hrun3|]. rewrite Ht3. vm_compute. reflexivity.
Defined.

(** ** Reloads running at the same time *)

Section Reload.

(** Every handler of [signal.c] follows the lock discipline: only
    [signal_refresh] touches the mutex, and it calls
    [http_content_refresh] between taking and releasing it. *)
Lemma handler_disciplined f signum : disciplined false (handler_body f signum).
Proof.
  destruct f; simpl; repeat split; try done.
  all: intros []; simpl; repeat split; done.
Qed.

Lemma sys_inv_init w : sys_inv (sys0 w).
Proof. split; [by intros i t|done]. Qed.

(** One invocation moves on: the invariant is kept if the invocation
    follows the discipline from its new place and the mutex changes
    hands only to or from it. *)
Lemma sys_inv_update s i t t' owner' w' :
  sys_inv s →
  s_threads s !! i = Some t →
  disciplined_thread (bool_decide (owner' = Some i)) t' →
  (∀ j, j ≠ i →
        bool_decide (owner' = Some j) = bool_decide (s_owner s = Some j)) →
  (∀ j, owner' = Some j → (j < length (s_threads s))%nat) →
  sys_inv (mk_sys (<[i := t']> (s_threads s)) owner' w').
Proof.
  intros [Hd Ho] Hi Ht' Hother Hlt. split; simpl.
  - intros j t1 Hj. destruct (decide (j = i)) as [->|Hne].
    + rewrite list_lookup_insert_eq in Hj by (by eapply lookup_lt_Some).
      by simplify_eq.
    + rewrite list_lookup_insert_ne in Hj by done.
      rewrite Hother by done. by apply Hd.
  - intros j Hj. rewrite length_insert. by apply Hlt.
Qed.

Lemma sys_inv_same_owner s i t t' w' :
  sys_inv s →
  s_threads s !! i = Some t →
  disciplined_thread (bool_decide (s_owner s = Some i)) t' →
  sys_inv (mk_sys (<[i := t']> (s_threads s)) (s_owner s) w').
Proof.
  intros Hinv Hi Ht'. eapply sys_inv_update; try done. apply Hinv.
Qed.

Lemma sys_inv_plain fuel s i {X} (o : op X) k s' :
  sys_inv s →
  s_threads s !! i = Some (TRun (Vis o k)) →
  held_after (bool_decide (s_owner s = Some i)) o
    = bool_decide (s_owner s = Some i) →
  step_plain fuel i s o k = Some s' →
  sys_inv s'.
Proof.
  intros Hinv Hi Hheld Hstep. unfold step_plain in Hstep.
  destruct (sem None (deliver_in None fuel []) o (s_world s)) as [x w'| | |];
    simplify_eq.
  eapply sys_inv_same_owner; try done.
  destruct Hinv as [Hd _]. specialize (Hd i _ Hi) as [_ Hk].
  simpl. rewrite <- Hheld. apply Hk.
Qed.

Lemma sys_inv_tstep fuel i s s' :
  sys_inv s → tstep fuel i s = Some s' → sys_inv s'.
Proof.
  intros Hinv Hstep. unfold tstep in Hstep.
  destruct (s_threads s !! i) as [[p|k]|] eqn:Hi; [| |done].
  - destruct p as [r|X o k]; [done|].
    pose proof (proj1 Hinv i _ Hi) as [Hok Hk].
    destruct o; simpl in Hstep;
      try (by eapply (sys_inv_plain fuel s i); [done|exact Hi|done|done]).
    + (* mutex_lock *)
      destruct (s_owner s) as [j|] eqn:Hown; [done|]. injection Hstep as <-.
      apply (sys_inv_update s i _ _ _ _ Hinv Hi).
      * simpl. rewrite ?bool_decide_eq_true_2 by done. apply Hk.
      * intros j Hj. rewrite Hown.
        rewrite !bool_decide_eq_false_2; [done|done|congruence].
      * intros j [= <-]. by eapply lookup_lt_Some.
    + (* mutex_unlock *)
      case_bool_decide as Hown; [|done]. injection Hstep as <-.
      apply (sys_inv_update s i _ _ _ _ Hinv Hi).
      * simpl. rewrite ?bool_decide_eq_false_2 by done. apply Hk.
      * intros j Hj. rewrite Hown.
        rewrite !bool_decide_eq_false_2; [done|congruence|done].
      * done.
    + (* http_content_refresh *)
      injection Hstep as <-.
      apply (sys_inv_same_owner s i _ _ _ Hinv Hi).
      simpl in Hok, Hk. rewrite Hok in *. split; [done|]. apply Hk.
  - destruct (pop_refresh (s_world s)) as [b w'] eqn:Hpop. simplify_eq.
    pose proof (proj1 Hinv i _ Hi) as [Hheld Hk].
    eapply sys_inv_same_owner; try done.
    simpl. rewrite Hheld. apply Hk.
Qed.

Lemma sys_inv_arrive signum s s' :
  sys_inv s → arrive signum s = Some s' → sys_inv s'.
Proof.
  intros [Hd Ho] Harr. unfold arrive in Harr.
  destruct (w_disp (s_world s) !! signum) as [act|]; [|done].
  destruct (sa_handler act) as [| |f]; simplify_eq.
  split; simpl.
  - intros i t Hi. destruct (decide (i < length (s_threads s))%nat) as [Hlt|Hge].
    + rewrite lookup_app_l in Hi by done. by apply Hd.
    + rewrite lookup_app_r in Hi by lia.
      destruct (i - length (s_threads s))%nat as [|n] eqn:Hn; [|done].
      simpl in Hi. simplify_eq.
      rewrite bool_decide_eq_false_2.
      * apply handler_disciplined.
      * intros Hown. apply Ho in Hown. lia.
  - intros i Hi. rewrite length_app. apply Ho in Hi. lia.
Qed.

Lemma sys_inv_sstep fuel a s s' :
  sys_inv s → sstep fuel a s = Some s' → sys_inv s'.
Proof.
  destruct a; simpl; [apply sys_inv_arrive|apply sys_inv_tstep].
Qed.

Lemma sys_inv_run fuel sched s s' :
  sys_inv s → sys_run fuel sched s = Some s' → sys_inv s'.
Proof.
  revert s. induction sched as [|a sched IH]; intros s Hinv Hrun; simpl in Hrun.
  - by simplify_eq.
  - destruct (sstep fuel a s) as [s1|] eqn:Hstep; [|done].
    eapply IH; [|done]. by eapply sys_inv_sstep.
Qed.

(** The invocation with a refresh in flight holds the mutex. *)
Lemma in_flight_owner s i k :
  sys_inv s → s_threads s !! i = Some (TInRefresh k) → s_owner s = Some i.
Proof.
  intros [Hd _] Hi. destruct (Hd i _ Hi) as [Hheld _].
  by apply bool_decide_eq_true_1 in Hheld.
Qed.

(** A step of one invocation leaves the others where they are. *)
Lemma tstep_other fuel i j s s' :
  tstep fuel j s = Some s' → i ≠ j →
  s_threads s' !! i = s_threads s !! i.
Proof.
  intros Hstep Hne. unfold tstep in Hstep.
  destruct (s_threads s !! j) as [[p|k]|] eqn:Hj; [| |done].
  - destruct p as [r|X o k]; [done|].
    destruct o; simpl in Hstep; unfold step_plain in Hstep;
      repeat case_match; simplify_eq; simpl;
      by rewrite list_lookup_insert_ne.
  - destruct (pop_refresh (s_world s)) as [b w']. simplify_eq. simpl.
    by rewrite list_lookup_insert_ne.
Qed.

End Reload.

(** ** The reload mutex is always released *)

Section Release.

Lemma lock_free_idle p : lock_free p → idle p.
Proof.
  induction p as [r|X o k IH]; [done|]. simpl. intros [Ho Hk].
  split; [by destruct o|]. intros _ x. apply IH, Hk.
Qed.

Lemma handler_idle f signum : idle (handler_body f signum).
Proof.
  destruct f; simpl; repeat split; try done.
  all: try (intros []; simpl; repeat split; done).
  all: try (intros _ []; simpl; repeat split; done).
Qed.

Lemma sys_live_init w : sys_live (sys0 w).
Proof. split; [by intros i t|done]. Qed.

Lemma sys_live_update s i t t' owner' w' :
  sys_live s →
  s_threads s !! i = Some t →
  (if bool_decide (owner' = Some i)
   then ∃ n, (n ≤ 4)%nat ∧ tcrit n t' else tidle t') →
  (∀ j, j ≠ i →
        bool_decide (owner' = Some j) = bool_decide (s_owner s = Some j)) →
  (∀ j, owner' = Some j → (j < length (s_threads s))%nat) →
  sys_live (mk_sys (<[i := t']> (s_threads s)) owner' w').
Proof.
  intros [Hd Ho] Hi Ht' Hother Hlt. split; simpl.
  - intros j t1 Hj. destruct (decide (j = i)) as [->|Hne].
    + rewrite list_lookup_insert_eq in Hj by (by eapply lookup_lt_Some).
      by simplify_eq.
    + rewrite list_lookup_insert_ne in Hj by done.
      rewrite Hother by done. by apply Hd.
  - intros j Hj. rewrite length_insert. by apply Hlt.
Qed.

Lemma sys_live_same_owner s i t t' w' :
  sys_live s →
  s_threads s !! i = Some t →
  (if bool_decide (s_owner s = Some i)
   then ∃ n, (n ≤ 4)%nat ∧ tcrit n t' else tidle t') →
  sys_live (mk_sys (<[i := t']> (s_threads s)) (s_owner s) w').
Proof.
  intros Hinv Hi Ht'. eapply sys_live_update; try done. apply Hinv.
Qed.

(** A call that leaves the mutex alone, made outside the critical
    section. *)
Lemma sys_live_plain fuel s i {X} (o : op X) k s' :
  sys_live s →
  s_threads s !! i = Some (TRun (Vis o k)) →
  bool_decide (s_owner s = Some i) = false →
  is_lock_call o = false →
  step_plain fuel i s o k = Some s' →
  sys_live s'.
Proof.
  intros Hinv Hi Hown Ho Hstep. unfold step_plain in Hstep.
  destruct (sem None (deliver_in None fuel []) o (s_world s)) as [x w'| | |];
    simplify_eq.
  eapply sys_live_same_owner; try done.
  pose proof (proj1 Hinv i _ Hi) as Hidle. rewrite Hown in *.
  simpl in Hidle. destruct Hidle as [_ Hk]. by apply Hk.
Qed.

Lemma sys_live_tstep fuel i s s' :
  sys_live s → tstep fuel i s = Some s' → sys_live s'.
Proof.
  intros Hinv Hstep. unfold tstep in Hstep.
  destruct (s_threads s !! i) as [[p|k]|] eqn:Hi; [| |done].
  - destruct p as [r|X o k]; [done|].
    pose proof (proj1 Hinv i _ Hi) as Hi'.
    destruct (bool_decide (s_owner s = Some i)) eqn:Hown.
    + (* the owner, inside the critical section *)
      apply bool_decide_eq_true_1 in Hown.
      destruct Hi' as (n & Hn & Hc). destruct n as [|n]; [done|].
      destruct o; simpl in Hc; try done; simpl in Hstep.
      * (* log_emit *)
        unfold step_plain in Hstep. simpl in Hstep. injection Hstep as <-.
        apply (sys_live_same_owner s i _ _ _ Hinv Hi).
        rewrite bool_decide_eq_true_2 by done. exists n. split; [lia|done].
      * (* mutex_unlock *)
        rewrite bool_decide_eq_true_2 in Hstep by done.
        injection Hstep as <-.
        apply (sys_live_update s i _ _ _ _ Hinv Hi).
        -- simpl. by apply lock_free_idle.
        -- intros j Hj. rewrite Hown.
           rewrite !bool_decide_eq_false_2; [done|congruence|done].
        -- done.
      * (* http_content_refresh *)
        injection Hstep as <-.
        apply (sys_live_same_owner s i _ _ _ Hinv Hi).
        rewrite bool_decide_eq_true_2 by done. exists n. split; [lia|].
        simpl. exact Hc.
    + (* outside the critical section *)
      simpl in Hi'. destruct Hi' as [Hentry Hk].
      destruct o; simpl in Hentry; try done; simpl in Hstep;
        try (by eapply (sys_live_plain fuel s i); [done|exact Hi|done|done|done]).
      (* mutex_lock *)
      destruct (s_owner s) as [j|] eqn:Hnone; [done|]. injection Hstep as <-.
      apply (sys_live_update s i _ _ _ _ Hinv Hi).
      * rewrite bool_decide_eq_true_2 by done. exists 4%nat. split; [lia|done].
      * intros j Hj. rewrite Hnone.
        rewrite !bool_decide_eq_false_2; [done|done|congruence].
      * intros j [= <-]. by eapply lookup_lt_Some.
  - destruct (pop_refresh (s_world s)) as [b w'] eqn:Hpop.
    injection Hstep as <-.
    pose proof (proj1 Hinv i _ Hi) as Hi'.
    destruct (bool_decide (s_owner s = Some i)) eqn:Hown; [|done].
    destruct Hi' as (n & Hn & Hc). destruct n as [|n]; [done|].
    apply (sys_live_same_owner s i _ _ _ Hinv Hi).
    rewrite Hown. exists n. split; [lia|]. apply Hc.
Qed.

Lemma sys_live_arrive signum s s' :
  sys_live s → arrive signum s = Some s' → sys_live s'.
Proof.
  intros [Hd Ho] Harr. unfold arrive in Harr.
  destruct (w_disp (s_world s) !! signum) as [act|]; [|done].
  destruct (sa_handler act) as [| |f]; simplify_eq.
  split; simpl.
  - intros i t Hi.
    destruct (decide (i < length (s_threads s))%nat) as [Hlt|Hge].
    + rewrite lookup_app_l in Hi by done. by apply Hd.
    + rewrite lookup_app_r in Hi by lia.
      destruct (i - length (s_threads s))%nat as [|n] eqn:Hn; [|done].
      simpl in Hi. simplify_eq.
      rewrite bool_decide_eq_false_2.
      * apply handler_idle.
      * intros Hown. apply Ho in Hown. lia.
  - intros i Hi. rewrite length_app. apply Ho in Hi. lia.
Qed.

Lemma sys_live_run fuel sched s s' :
  sys_live s → sys_run fuel sched s = Some s' → sys_live s'.
Proof.
  revert s. induction sched as [|a sched IH]; intros s Hinv Hrun;
    simpl in Hrun.
  - by simplify_eq.
  - destruct (sstep fuel a s) as [s1|] eqn:Hstep; [|done].
    eapply IH; [|done].
    destruct a; simpl in Hstep;
      [by eapply sys_live_arrive|by eapply sys_live_tstep].
Qed.

End Release.

Section Handoff.

Lemma sys_run_app fuel sched1 sched2 s s1 :
  sys_run fuel sched1 s = Some s1 →
  sys_run fuel (sched1 ++ sched2) s = sys_run fuel sched2 s1.
Proof.
  revert s. induction sched1 as [|a sched1 IH]; intros s; simpl.
  - by intros [= ->].
  - destruct (sstep fuel a s) as [s'|]; [apply IH|done].
Qed.

(** One more step of the owner, then the rest of its way to the
    release. *)
Lemma owner_releases_step fuel n s i s1 :
  tstep fuel i s = Some s1 →
  length (s_threads s1) = length (s_threads s) →
  (∀ j, j ≠ i → s_threads s1 !! j = s_threads s !! j) →
  (∃ m s',
     (m ≤ n)%nat ∧
     sys_run fuel (replicate m (Step i)) s1 = Some s' ∧
     s_owner s' = None ∧
     length (s_threads s') = length (s_threads s1) ∧
     (∃ p, s_threads s' !! i = Some (TRun p) ∧ lock_free p) ∧
     ∀ j, j ≠ i → s_threads s' !! j = s_threads s1 !! j) →
  ∃ m s',
    (m ≤ S n)%nat ∧
    sys_run fuel (replicate m (Step i)) s = Some s' ∧
    s_owner s' = None ∧
    length (s_threads s') = length (s_threads s) ∧
    (∃ p, s_threads s' !! i = Some (TRun p) ∧ lock_free p) ∧
    ∀ j, j ≠ i → s_threads s' !! j = s_threads s !! j.
Proof.
  intros Hstep Hlen Hoth (m & s' & Hm & Hrun & Hown & Hlen' & Hp & Hoth').
  exists (S m), s'. split; [lia|]. split; [simpl; by rewrite Hstep|].
  split; [done|]. split; [congruence|]. split; [done|].
  intros j Hj. rewrite Hoth' by done. by apply Hoth.
Qed.

(** The owner of the mutex, run alone, releases it within the number of
    steps its place in the critical section allows; it is then past its
    [mutex_unlock], with nothing left to do with the mutex, and nobody
    else has moved. *)
Lemma owner_releases fuel n s i t :
  s_threads s !! i = Some t →
  s_owner s = Some i →
  tcrit n t →
  ∃ m s',
    (m ≤ n)%nat ∧
    sys_run fuel (replicate m (Step i)) s = Some s' ∧
    s_owner s' = None ∧
    length (s_threads s') = length (s_threads s) ∧
    (∃ p, s_threads s' !! i = Some (TRun p) ∧ lock_free p) ∧
    ∀ j, j ≠ i → s_threads s' !! j = s_threads s !! j.
Proof.
  revert s t. induction n as [|n IH]; intros s t Hi Hown Hc.
  { by destruct t. }
  assert (i < length (s_threads s))%nat as Hlt by (by eapply lookup_lt_Some).
  destruct t as [p|k].
  - destruct p as [r|X o k]; [done|].
    destruct o; simpl in Hc; try done.
    + (* log_emit *)
      eapply owner_releases_step.
      * unfold tstep. rewrite Hi. reflexivity.
      * simpl. by rewrite length_insert.
      * intros j Hj. simpl. by rewrite list_lookup_insert_ne.
      * eapply (IH _ (TRun (k tt))); [|exact Hown|exact Hc].
        simpl. by apply list_lookup_insert_eq.
    + (* mutex_unlock *)
      exists 1%nat. eexists. split; [lia|]. split.
      { simpl. unfold tstep. rewrite Hi. simpl.
        rewrite bool_decide_eq_true_2 by done. reflexivity. }
      simpl. split; [done|]. split; [by rewrite length_insert|]. split.
      { exists (k tt). split; [by apply list_lookup_insert_eq|done]. }
      intros j Hj. by rewrite list_lookup_insert_ne.
    + (* http_content_refresh *)
      eapply owner_releases_step.
      * unfold tstep. rewrite Hi. reflexivity.
      * simpl. by rewrite length_insert.
      * intros j Hj. simpl. by rewrite list_lookup_insert_ne.
      * eapply (IH _ (TInRefresh k)); [|exact Hown|exact Hc].
        simpl. by apply list_lookup_insert_eq.
  - (* the refresh returns *)
    destruct (pop_refresh (s_world s)) as [b w'] eqn:Hpop.
    eapply owner_releases_step.
    + unfold tstep. rewrite Hi, Hpop. reflexivity.
    + simpl. by rewrite length_insert.
    + intros j Hj. simpl. by rewrite list_lookup_insert_ne.
    + eapply (IH _ (TRun (k b))).
      * simpl. by apply list_lookup_insert_eq.
      * exact Hown.
      * apply Hc.
Qed.

End Handoff.

(** C5. In every state the process can reach, whatever signals arrive and
    however the handler invocations are interleaved: [signal_refresh] calls
    [http_content_refresh] only between taking and releasing
    [sig_hup_mutex]; at most one refresh is in flight; and while one is,
    its invocation holds the mutex, an invocation that is about to take
    the mutex cannot move, no arrival of a signal and no step of another
    invocation takes the refresh out of flight, and the refresh itself can
    return and go on. The mutex is released only afterward, and it is
    released: going on alone, the invocation lets go of the mutex within
    four steps, the refresh having returned, and an invocation that has
    been waiting at [mutex_lock] then takes it. *)
Theorem reload_serialized (fuel : nat) (w : world) (sched : list action)
    (s : sys) :
  sys_run fuel sched (sys0 w) = Some s →
  (∀ signal, disciplined false (signal_refresh signal)) ∧
  (∀ i j ki kj,
     s_threads s !! i = Some (TInRefresh ki) →
     s_threads s !! j = Some (TInRefresh kj) →
     i = j) ∧
  (∀ i ki,
     s_threads s !! i = Some (TInRefresh ki) →
     s_owner s = Some i ∧
     (∀ j m k,
        s_threads s !! j = Some (TRun (Vis (mutex_lock m) k)) →
        tstep fuel j s = None) ∧
     (∀ a s',
        a ≠ Step i → sstep fuel a s = Some s' →
        s_threads s' !! i = Some (TInRefresh ki)) ∧
     (∃ s',
        tstep fuel i s = Some s' ∧
        s_owner s' = Some i ∧
        s_threads s' !! i = Some (TRun (ki (pop_refresh (s_world s)).1))) ∧
     (∃ n s',
        (1 < n ≤ 4)%nat ∧
        sys_run fuel (replicate n (Step i)) s = Some s' ∧
        s_owner s' = None ∧
        (∃ p, s_threads s' !! i = Some (TRun p) ∧ lock_free p) ∧
        ∀ j m k,
          s_threads s !! j = Some (TRun (Vis (mutex_lock m) k)) →
          ∃ s'',
            tstep fuel j s' = Some s'' ∧
            s_owner s'' = Some j ∧
            s_threads s'' !! j = Some (TRun (k tt)))).
Proof.
  intros Hrun.
  pose proof (sys_inv_run fuel sched _ _ (sys_inv_init w) Hrun) as Hinv.
  pose proof (sys_live_run fuel sched _ _ (sys_live_init w) Hrun) as Hlive.
  split; [intros signal; apply (handler_disciplined fn_signal_refresh)|].
  split.
  - intros i j ki kj Hi Hj.
    pose proof (in_flight_owner s i ki Hinv Hi) as Hoi.
    pose proof (in_flight_owner s j kj Hinv Hj) as Hoj.
    congruence.
  - intros i ki Hi.
    pose proof (in_flight_owner s i ki Hinv Hi) as Hown.
    assert (i < length (s_threads s))%nat as Hlt by (by eapply lookup_lt_Some).
    split; [exact Hown|]. split; [|split; [|split]].
    + intros j m k Hj. unfold tstep. rewrite Hj. simpl. by rewrite Hown.
    + intros [signum|j] s' Hne Hstep; simpl in Hstep.
      * unfold arrive in Hstep. repeat case_match; simplify_eq. simpl.
        by rewrite lookup_app_l.
      * rewrite (tstep_other fuel i j s s' Hstep); [done|congruence].
    + unfold tstep. rewrite Hi.
      destruct (pop_refresh (s_world s)) as [b w']. eexists. split; [done|].
      simpl. split; [done|]. by apply list_lookup_insert_eq.
    + pose proof (proj1 Hlive i _ Hi) as Hc.
      rewrite bool_decide_eq_true_2 in Hc by done.
      destruct Hc as (n & Hn & Hc).
      destruct (owner_releases fuel n s i _ Hi Hown Hc)
        as (m & s' & Hm & Hrun' & Hown' & Hlen & Hdone & Hoth).
      exists m, s'. split.
      { split; [|lia]. destruct m as [|[|m]]; [| |lia].
        - simpl in Hrun'. injection Hrun' as <-. congruence.
        - simpl in Hrun'. unfold tstep in Hrun'. rewrite Hi in Hrun'.
          destruct (pop_refresh (s_world s)) as [b w'].
          injection Hrun' as <-. simpl in Hown'. congruence. }
      split; [exact Hrun'|]. split; [exact Hown'|]. split; [exact Hdone|].
      intros j mx k Hj.
      assert (j ≠ i) as Hne by (intros ->; congruence).
      unfold tstep. rewrite (Hoth j Hne), Hj. simpl. rewrite Hown'.
      eexists. split; [reflexivity|]. simpl. split; [done|].
      apply list_lookup_insert_eq. rewrite Hlen. by eapply lookup_lt_Some.
Qed.

(** Two SIGHUP in a row: the first invocation takes the mutex and starts
    the refresh, the second arrives and waits; the first goes on, releases
    the mutex, and the second takes it. *)
Lemma reload_serialized_witness :
  ∃ s,
    sys_run 0 [Arrive SIGHUP; Step 0; Step 0; Arrive SIGHUP] (sys0 world1)
      = Some s ∧
    in_flight <$> s_threads s = [true; false] ∧
    s_owner s = Some 0%nat ∧
    tstep 0 1 s = None ∧
    ∃ n s' s'',
      sys_run 0 (replicate n (Step 0%nat)) s = Some s' ∧
      s_owner s' = None ∧
      tstep 0 1 s' = Some s'' ∧
      s_owner s'' = Some 1%nat.
Proof.
  eexists. split; [vm_compute; reflexivity|].
  split; [reflexivity|].
  match goal with
  | |- s_owner ?s = _ ∧ _ =>
    destruct (reload_serialized 0 world1
                [Arrive SIGHUP; Step 0; Step 0; Arrive SIGHUP] s
                ltac:(vm_compute; reflexivity)) as (_ & _ & H)
  end.
  destruct (H 0%nat _ eq_refl) as (Hown & Hblock & _ & _ & Hrel).
  split; [exact Hown|]. split; [eapply (Hblock 1%nat); reflexivity|].
  destruct Hrel as (n & s' & _ & Hrun & Hown' & _ & Hwait).
  destruct (Hwait 1%nat sig_hup_mutex _ eq_refl) as (s'' & Hstep & Hown'' & _).
  by exists n, s', s''.
Defined.

(** * Further properties *)

(** ** The two registration entry points *)

Ltac thread_start_leaf :=
  eexists _, _; split; [run_world; reflexivity|];
  lazy zeta; apply all_zero_iff;
  simpl; rewrite ?app_nil_r; by repeat split.

(** X1. [signal_thread_start] returns true exactly when its [sigemptyset]
    and its [sigaction] both return zero. On success it has installed
    [signal_status] for SIGALRM and logged nothing; on failure the
    disposition table is as it was and one informational line is logged.
    Status, mutex and threads are never touched. *)
Theorem signal_thread_start_installs (fuel : nat) (w : world) :
  let rs := upcoming_rets 2 w in
  ∃ b w',
    exec fuel signal_thread_start w = Returned b w' ∧
    (b = true ↔ Forall (λ r, r = 0) rs) ∧
    w_disp w' =
      (if b then <[SIGALRM := sa_status]> (w_disp w) else w_disp w) ∧
    w_log w' = w_log w ++
      (if b then []
       else [mk_log_line M_LOG_INFO false msg_setup_thread_status None]) ∧
    w_status w' = w_status w ∧
    w_mutex w' = w_mutex w ∧
    w_threads w' = w_threads w.
Proof.
  destruct w as [tr lg dp st mx th rets rf sc].
  do 2 (next_ret rets;
        [thread_start_leaf| |thread_start_leaf|thread_start_leaf]).
  thread_start_leaf.
Qed.

Section Table.

Implicit Types (d : gmap Z struct_sigaction).

Lemma call_signums_lookup (cs : list (option (Z * struct_sigaction))) s :
  s ∈ call_signums cs → ∃ i a, cs !! i = Some (Some (s, a)).
Proof.
  unfold call_signums. rewrite list_elem_of_omap.
  intros ([[s' a]|] & Hin & Hs); simplify_eq/=.
  apply list_elem_of_lookup in Hin as [i Hi]. by exists i, a.
Qed.

Lemma registration_table_lookup i s a :
  registration_calls !! i = Some (Some (s, a)) →
  registration_table !! s = Some a.
Proof.
  intros Hi. unfold registration_table.
  apply elem_of_list_to_map_1.
  - refine (bool_decide_unpack _ _). by vm_compute.
  - apply list_elem_of_omap. exists (Some (s, a)).
    split; [by eapply list_elem_of_lookup_2|done].
Qed.

Lemma registration_table_None s :
  s ∉ registered_signums → registration_table !! s = None.
Proof.
  intros Hs. unfold registration_table.
  apply not_elem_of_list_to_map_1. exact Hs.
Qed.

(** Whatever [signal_start] returns, the signals it does not register
    keep their disposition. *)
Lemma signal_start_other fuel w b w' s :
  exec fuel signal_start w = Returned b w' →
  s ∉ registered_signums →
  w_disp w' !! s = w_disp w !! s.
Proof.
  intros Hrun Hs.
  destruct (signal_start_run fuel w) as (b1 & w1 & Hrun1 & H).
  rewrite Hrun in Hrun1. injection Hrun1 as <- <-.
  assert (∀ n, s ∉ event_signums
                 (calls_made (take n registration_calls) (upcoming_rets 14 w)))
    as Hout.
  { intros n Hin. apply Hs. unfold registered_signums.
    eapply elem_of_sublist; [exact Hin|].
    etrans; [apply calls_made_signums|apply call_signums_take]. }
  destruct (first_nonzero _) as [k|].
  - destruct H as (_ & _ & _ & ->). apply installed_other, Hout.
  - destruct H as (_ & _ & _ & ->).
    rewrite <- (take_ge registration_calls 14) by done.
    apply installed_other, Hout.
Qed.

End Table.

Lemma signal_start_disp (fuel : nat) (w w' : world) :
  exec fuel signal_start w = Returned true w' →
  w_disp w' = registration_table ∪ w_disp w.
Proof.
  intros Hrun. apply map_eq. intros s.
  destruct (decide (s ∈ registered_signums)) as [Hin|Hout].
  - apply call_signums_lookup in Hin as (i & a & Hi).
    rewrite (signal_start_installs fuel w w' i s a Hrun Hi).
    symmetry. apply lookup_union_Some_l.
    by apply (registration_table_lookup i).
  - rewrite (signal_start_other fuel w true w' s Hrun Hout).
    symmetry. rewrite lookup_union_r; [done|].
    by apply registration_table_None.
Qed.

Ltac frame_leaf :=
  eexists _, _; split; [run_world; reflexivity|]; by repeat split.

(** [signal_start] changes the disposition table and the log, nothing
    else. *)
Lemma signal_start_frame (fuel : nat) (w : world) :
  ∃ b w',
    exec fuel signal_start w = Returned b w' ∧
    w_status w' = w_status w ∧
    w_mutex w' = w_mutex w ∧
    w_threads w' = w_threads w.
Proof.
  destruct w as [tr lg dp st mx th rets rf sc].
  do 14 (next_ret rets; [frame_leaf| |frame_leaf|frame_leaf]).
  frame_leaf.
Qed.

Ltac disp_leaf := run_world; intros [=]; subst; reflexivity.

Lemma signal_thread_start_disp (fuel : nat) (w w' : world) :
  exec fuel signal_thread_start w = Returned true w' →
  w_disp w' = <[SIGALRM := sa_status]> (w_disp w).
Proof.
  destruct w as [tr lg dp st mx th rets rf sc].
  do 2 (next_ret rets; [disp_leaf| |disp_leaf|disp_leaf]).
  disp_leaf.
Qed.

(** X2. After a successful [signal_start] the disposition table is the
    ten registrations laid over the table it started from: the three
    termination signals have [signal_shutdown], SIGPIPE is ignored, the
    five fatal signals have [signal_segfault] with SA_RESETHAND, SIGHUP
    has [signal_refresh], and every other signal is as before. *)
Theorem signal_start_table (fuel : nat) (w w' : world) :
  exec fuel signal_start w = Returned true w' →
  w_disp w' = registration_table ∪ w_disp w.
Proof. apply signal_start_disp. Qed.

Lemma signal_start_table_witness :
  exec 0 signal_start world0 = Returned true world1 ∧
  w_disp world1 = registration_table ∪ w_disp world0.
Proof.
  split; [vm_compute; reflexivity|].
  apply (signal_start_table 0 world0 world1). vm_compute. reflexivity.
Defined.

(** X3. Whether it succeeds or fails, [signal_start] leaves alone every
    signal outside the ten it registers (SIGALRM, the per-thread wake
    signal, among them), and it never touches the Shutdown Status, the
    reload mutex or the threads. *)
Theorem signal_start_touches_nothing_else (fuel : nat) (w : world) :
  ∃ b w',
    exec fuel signal_start w = Returned b w' ∧
    (∀ s, s ∉ registered_signums → w_disp w' !! s = w_disp w !! s) ∧
    w_disp w' !! SIGALRM = w_disp w !! SIGALRM ∧
    w_status w' = w_status w ∧
    w_mutex w' = w_mutex w ∧
    w_threads w' = w_threads w.
Proof.
  destruct (signal_start_frame fuel w) as (b & w' & Hrun & Hst & Hmx & Hth).
  exists b, w'. split; [exact Hrun|].
  split; [intros s; by apply (signal_start_other fuel w b)|].
  split; [|done].
  apply (signal_start_other fuel w b w' SIGALRM Hrun).
  refine (bool_decide_unpack _ _). by vm_compute.
Qed.

(** X4. [signal_start] is idempotent on the disposition table: run again
    after a successful run, a second successful run leaves the table as
    the first one made it. *)
Theorem signal_start_idempotent (fuel fuel' : nat) (w w1 w2 : world) :
  exec fuel signal_start w = Returned true w1 →
  exec fuel' signal_start w1 = Returned true w2 →
  w_disp w2 = w_disp w1.
Proof.
  intros H1 H2.
  rewrite (signal_start_disp fuel' w1 w2 H2), (signal_start_disp fuel w w1 H1).
  by rewrite (assoc_L (∪)), (idemp_L (∪)).
Qed.

Lemma signal_start_idempotent_witness :
  ∃ w2,
    exec 0 signal_start world0 = Returned true world1 ∧
    exec 0 signal_start world1 = Returned true w2 ∧
    w_disp w2 = w_disp world1.
Proof.
  eexists. split; [vm_compute; reflexivity|].
  split; [vm_compute; reflexivity|].
  apply (signal_start_idempotent 0 0 world0 world1);
    vm_compute; reflexivity.
Defined.

(** X5. The two entry points do not interfere: the process-level bootstrap
    and the per-thread registration, both successful, give the same table
    in either order, with [signal_status] on SIGALRM and the ten
    process-level registrations in place. *)
Theorem registrations_commute (fuel : nat) (w wa wab wb wba : world) :
  exec fuel signal_start w = Returned true wa →
  exec fuel signal_thread_start wa = Returned true wab →
  exec fuel signal_thread_start w = Returned true wb →
  exec fuel signal_start wb = Returned true wba →
  w_disp wab = w_disp wba ∧
  w_disp wab = registration_table ∪ <[SIGALRM := sa_status]> (w_disp w).
Proof.
  intros Ha Hab Hb Hba.
  rewrite (signal_thread_start_disp fuel wa wab Hab).
  rewrite (signal_start_disp fuel w wa Ha).
  rewrite (signal_start_disp fuel wb wba Hba).
  rewrite (signal_thread_start_disp fuel w wb Hb).
  assert (registration_table !! SIGALRM = None) as Hnone.
  { apply registration_table_None.
    refine (bool_decide_unpack _ _). by vm_compute. }
  by rewrite insert_union_r.
Qed.

Lemma registrations_commute_witness :
  ∃ wab wb wba,
    exec 0 signal_thread_start world1 = Returned true wab ∧
    exec 0 signal_thread_start world0 = Returned true wb ∧
    exec 0 signal_start wb = Returned true wba ∧
    w_disp wab = w_disp wba.
Proof.
  eexists _, _, _.
  split; [vm_compute; reflexivity|].
  split; [vm_compute; reflexivity|].
  split; [vm_compute; reflexivity|].
  refine (proj1 (registrations_commute 0 world0 world1 _ _ _ _ _ _ _));
    vm_compute; reflexivity.
Defined.

(** ** Handlers delivered by the kernel, again and again *)

(** X6. [signal_shutdown] does not look at what [thread_launch] returns.
    When the launch succeeds, the run has added exactly one thread and
    has joined it when it returns. When the launch fails, the handle is
    still the wiped one: the run makes the same calls, joins the wiped
    handle, adds no thread, and returns all the same. In both cases it
    logs one line and changes neither the disposition table nor the
    reload mutex. *)
Theorem signal_shutdown_ignores_launch_result (signal : Z)
    (fault : option faults) (fuel : nat) (w : world) :
  ∃ t w',
    run fault (deliver_in fault fuel []) (signal_shutdown signal) w
      = Returned tt w' ∧
    t = (if launch_fails fault w then O else S (length (w_threads w))) ∧
    w_trace w' = w_trace w ++ shutdown_calls signal t ∧
    w_log w' = w_log w ++ [shutdown_line signal] ∧
    w_disp w' = w_disp w ∧
    w_mutex w' = w_mutex w ∧
    (if launch_fails fault w
     then length (w_threads w') = length (w_threads w)
     else length (w_threads w') = S (length (w_threads w)) ∧
          w_threads w' !! length (w_threads w)
            = Some (status_signal, ThJoined)).
Proof.
  destruct (signal_shutdown_run fault (deliver_in fault fuel []) signal w)
    as (t & w' & Hrun & Heq & Ht & Hlog & Hd & Hm & Hok & Hfail).
  exists t, w'. split; [exact Hrun|]. split; [exact Heq|].
  split; [exact Ht|]. split; [exact Hlog|]. split; [exact Hd|].
  split; [exact Hm|].
  destruct (launch_fails fault w); subst t.
  - by apply Hfail.
  - destruct Hok as (Hlen & Hj & _); by try split.
Qed.

(** SIGINT in a fresh process that cannot launch a thread: the handler
    goes through its calls with the wiped handle and returns; nobody has
    published [Draining]. *)
Example signal_shutdown_without_helper :
  ∃ w',
    run (Some no_threads) (deliver_in (Some no_threads) 0 [])
      (signal_shutdown SIGINT) world0 = Returned tt w' ∧
    w_trace w' = shutdown_calls SIGINT 0%nat ∧
    w_threads w' = [] ∧
    w_status w' = Running.
Proof. eexists. split; [reflexivity|]. by vm_compute. Qed.

(** The same where threads can be launched: the helper has published
    [Draining] by the time the handler returns, whether or not the
    scheduler lets it run before the join. *)
Example signal_shutdown_with_helper :
  ∃ w',
    exec 0 (signal_shutdown SIGINT) world0 = Returned tt w' ∧
    w_trace w' = shutdown_calls SIGINT 1%nat ∧
    w_threads w' = [(status_signal, ThJoined)] ∧
    w_status w' = Draining.
Proof. eexists. split; [reflexivity|]. by vm_compute. Qed.

Lemma deliver_n_S fuel n signum w :
  deliver_n fuel (S n) signum w =
    match deliver None fuel signum w with
    | Returned _ w' => deliver_n fuel n signum w'
    | o => o
    end.
Proof. reflexivity. Qed.

(** A termination signal delivered where the shutdown handler is
    installed. *)
Lemma deliver_shutdown fuel s w :
  w_disp w !! s = Some sa_normal →
  ∃ w',
    deliver None (S fuel) s w = Returned tt w' ∧
    w_trace w' = w_trace w ++
      EvEnter fn_signal_shutdown s
        :: shutdown_calls s (S (length (w_threads w))) ∧
    w_disp w' = w_disp w ∧
    length (w_threads w') = S (length (w_threads w)).
Proof.
  intros Hd.
  rewrite (deliver_handler _ _ _ _ _ fn_signal_shutdown Hd eq_refl).
  change (has_resethand sa_normal) with false. cbv iota.
  unfold handler_body.
  match goal with
  | |- context [run None ?r (signal_shutdown s) ?W] =>
    destruct (signal_shutdown_run None r s W)
      as (t & w' & Hrun & Heq & Ht & _ & Hdisp & _ & Hok & _)
  end.
  change (t = S (length (w_threads w))) in Heq. subst t.
  destruct Hok as (Hlen & _); [done|].
  exists w'. split; [exact Hrun|]. split; [|split].
  - rewrite Ht. simpl. by rewrite <- app_assoc.
  - exact Hdisp.
  - exact Hlen.
Qed.

(** X7. Shutdown triggers are not deduplicated: the shutdown handler
    stays installed, and a termination signal delivered twice to a
    bootstrapped process runs the whole sequence twice, each run with a
    helper thread of its own. *)
Theorem shutdown_runs_again (fuel fuel' : nat) (w w1 : world) (s : Z) :
  exec fuel signal_start w = Returned true w1 →
  s ∈ termination_signals →
  ∃ w2,
    deliver_n (S fuel') 2 s w1 = Returned tt w2 ∧
    w_trace w2 = w_trace w1
      ++ EvEnter fn_signal_shutdown s
           :: shutdown_calls s (S (length (w_threads w1)))
      ++ EvEnter fn_signal_shutdown s
           :: shutdown_calls s (S (S (length (w_threads w1)))) ∧
    w_disp w2 !! s = Some sa_normal.
Proof.
  intros Hrun Hs.
  pose proof (termination_signals_registered fuel w w1 s Hrun Hs) as Hd.
  destruct (deliver_shutdown fuel' s w1 Hd) as (wa & Ha & Hta & Hda & Hla).
  assert (w_disp wa !! s = Some sa_normal) as Hd' by (by rewrite Hda).
  destruct (deliver_shutdown fuel' s wa Hd') as (wb & Hb & Htb & Hdb & Hlb).
  exists wb. rewrite deliver_n_S, Ha, deliver_n_S, Hb. split; [done|]. split.
  - rewrite Htb, Hta, Hla. by rewrite <- app_assoc.
  - by rewrite Hdb.
Qed.

Lemma shutdown_runs_again_witness :
  ∃ w2,
    exec 0 signal_start world0 = Returned true world1 ∧
    deliver_n 1 2 SIGTERM world1 = Returned tt w2 ∧
    handler_entries (w_trace w2) = 2%nat.
Proof.
  destruct (shutdown_runs_again 0 0 world0 world1 SIGTERM)
    as (w2 & Hrun & Ht & _).
  { vm_compute. reflexivity. }
  { unfold termination_signals. rewrite !elem_of_cons. tauto. }
  exists w2. split; [vm_compute; reflexivity|]. split; [exact Hrun|].
  rewrite Ht. vm_compute. reflexivity.
Defined.

(** One run of [signal_refresh] from a world where the mutex is free. *)
Lemma signal_refresh_run raise (signal : Z) (w : world) :
  w_mutex w = false →
  ∃ w',
    run None raise (signal_refresh signal) w = Returned tt w' ∧
    length (w_log w') = S (length (w_log w)) ∧
    w_disp w' = w_disp w ∧
    w_mutex w' = false ∧
    w_status w' = w_status w.
Proof.
  destruct w as [tr lg dp st mx th rets rf sc]. simpl. intros ->.
  destruct rf as [|[] rf]; (eexists; split; [run_world; reflexivity|]);
    simpl; rewrite length_app; simpl; repeat split; try done; lia.
Qed.

(** X8. The reload handler is not one-shot: in a bootstrapped process with
    the mutex free, SIGHUP delivered [n] times in a row returns each
    time, having logged [n] lines in all, and leaves the disposition
    table, the status and the free mutex as they were. *)
Theorem reload_repeatable (fuel fuel' n : nat) (w w1 : world) :
  exec fuel signal_start w = Returned true w1 →
  w_mutex w1 = false →
  ∃ w2,
    deliver_n (S fuel') n SIGHUP w1 = Returned tt w2 ∧
    length (w_log w2) = (length (w_log w1) + n)%nat ∧
    w_disp w2 = w_disp w1 ∧
    w_mutex w2 = false ∧
    w_status w2 = w_status w1.
Proof.
  intros Hrun Hm.
  pose proof (reload_signal_registered fuel w w1 Hrun) as Hd.
  clear Hrun. revert w1 Hm Hd.
  induction n as [|n IH]; intros w1 Hm Hd.
  - exists w1. simpl. repeat split; try done; lia.
  - rewrite deliver_n_S.
    rewrite (deliver_handler _ _ _ _ _ fn_signal_refresh Hd eq_refl).
    change (has_resethand sa_hup) with false. cbv iota.
    unfold handler_body.
    match goal with
    | |- context [run None ?r (signal_refresh SIGHUP) ?W] =>
      destruct (signal_refresh_run r SIGHUP W Hm)
        as (wa & Ha & Hla & Hda & Hma & Hsa)
    end.
    rewrite Ha.
    destruct (IH wa Hma) as (w2 & H2 & Hl2 & Hd2 & Hm2 & Hs2).
    { by rewrite Hda. }
    exists w2. split; [exact H2|].
    rewrite Hl2, Hd2, Hs2, Hla, Hda, Hsa. simpl. repeat split; try done; lia.
Qed.

Lemma reload_repeatable_witness :
  ∃ w2,
    exec 0 signal_start world0 = Returned true world1 ∧
    deliver_n 1 3 SIGHUP world1 = Returned tt w2 ∧
    length (w_log w2) = 3%nat.
Proof.
  destruct (reload_repeatable 0 0 3 world0 world1) as (w2 & Hrun & Hl & _).
  { vm_compute. reflexivity. }
  { reflexivity. }
  exists w2. split; [vm_compute; reflexivity|]. split; [exact Hrun|exact Hl].
Defined.

(** One run of [signal_status]. *)
Lemma signal_status_run raise (signal : Z) (w : world) :
  ∃ w',
    run None raise (signal_status signal) w = Returned tt w' ∧
    w_status w' = w_status w ∧
    w_disp w' = w_disp w ∧
    w_log w' = w_log w ++
      (if status_running w
       then [mk_log_line M_LOG_INFO false msg_status (Some signal)]
       else []).
Proof.
  destruct w as [tr lg dp st mx th rets rf sc].
  destruct st; (eexists; split; [run_world; reflexivity|]);
    simpl; rewrite ?app_nil_r; done.
Qed.

(** X9. The per-thread wake handler is not one-shot either: once
    [signal_thread_start] has succeeded, SIGALRM delivered [n] times
    returns each time with the status and the disposition table as they
    were; it has logged [n] informational lines if the status is
    [Running], and none at all if a shutdown is in progress. *)
Theorem wake_signal_repeatable (fuel fuel' n : nat) (w w1 : world) :
  exec fuel signal_thread_start w = Returned true w1 →
  ∃ w2,
    deliver_n (S fuel') n SIGALRM w1 = Returned tt w2 ∧
    w_status w2 = w_status w1 ∧
    w_disp w2 = w_disp w1 ∧
    w_log w2 = w_log w1 ++
      (if status_running w1
       then replicate n
              (mk_log_line M_LOG_INFO false msg_status (Some SIGALRM))
       else []).
Proof.
  intros Hrun.
  assert (w_disp w1 !! SIGALRM = Some sa_status) as Hd.
  { rewrite (signal_thread_start_disp fuel w w1 Hrun).
    apply lookup_insert_eq. }
  clear Hrun. revert w1 Hd.
  induction n as [|n IH]; intros w1 Hd.
  - exists w1. simpl. destruct (status_running w1); by rewrite app_nil_r.
  - rewrite deliver_n_S.
    rewrite (deliver_handler _ _ _ _ _ fn_signal_status Hd eq_refl).
    change (has_resethand sa_status) with false. cbv iota.
    unfold handler_body.
    match goal with
    | |- context [run None ?r (signal_status SIGALRM) ?W] =>
      destruct (signal_status_run r SIGALRM W)
        as (wa & Ha & Hsa & Hda & Hla)
    end.
    rewrite Ha.
    destruct (IH wa) as (w2 & H2 & Hs2 & Hd2 & Hl2).
    { by rewrite Hda. }
    exists w2. split; [exact H2|].
    assert (status_running wa = status_running w1) as Hr.
    { unfold status_running. by rewrite Hsa. }
    rewrite Hs2, Hd2, Hl2, Hla, Hsa, Hda, Hr.
    change (status_running (emit (EvEnter fn_signal_status SIGALRM) w1))
      with (status_running w1).
    repeat split.
    destruct (status_running w1); simpl; by rewrite <- ?app_assoc.
Qed.

Lemma wake_signal_repeatable_witness :
  ∃ w1 w2,
    exec 0 signal_thread_start world0 = Returned true w1 ∧
    deliver_n 1 2 SIGALRM w1 = Returned tt w2 ∧
    length (w_log w2) = 2%nat.
Proof.
  eexists. 
  destruct (wake_signal_repeatable 0 0 2 world0 _
              ltac:(run_world; reflexivity)) as (w2 & Hrun & _ & _ & Hl).
  exists w2. split; [run_world; reflexivity|]. split; [exact Hrun|].
  rewrite Hl. reflexivity.
Defined.

(** ** The crash handler, whatever its own calls return *)

(** X10. From any world in which the next [sigaction] call succeeds,
    [signal_segfault] ends with the process killed by SIGABRT, whatever the
    disposition of SIGABRT was before (a handler, ignored, the default):
    it has logged one critical line with a stack trace, installed the
    default disposition for SIGABRT, called [abort], and no handler has
    been entered. *)
Theorem signal_segfault_kills (signal : Z) (fuel : nat) (w : world) (r1 : Z) :
  upcoming_rets 2 w = [r1; 0] →
  ∃ w',
    exec fuel (signal_segfault signal) w = Terminated SIGABRT w' ∧
    w_trace w' = w_trace w ++
      [ EvLog (mk_log_line M_LOG_CRITICAL true msg_segfault (Some signal));
        EvSigemptyset r1;
        EvSigaction SIGABRT sa_clear 0;
        EvAbort;
        EvKilled SIGABRT ] ∧
    w_log w' = w_log w ++
      [mk_log_line M_LOG_CRITICAL true msg_segfault (Some signal)] ∧
    w_disp w' !! SIGABRT = Some sa_clear.
Proof.
  intros Hr.
  destruct (signal_segfault_pass (deliver_in None fuel []) signal w)
    as (r1' & r2 & w3 & Hr' & Hrun & Ht & Hl & Hd).
  rewrite Hr in Hr'. injection Hr' as <- <-. simpl in Hd.
  assert (w_disp w3 !! SIGABRT = Some sa_clear) as Hd3.
  { rewrite Hd. apply lookup_insert_eq. }
  unfold exec. rewrite Hrun, (aborted_default _ _ _ _ sa_clear Hd3 eq_refl).
  eexists. split; [reflexivity|]. split; [|split].
  - simpl. rewrite Ht. by rewrite <- !app_assoc.
  - exact Hl.
  - exact Hd3.
Qed.

(** SIGABRT ignored beforehand does not save the process. *)
Lemma signal_segfault_kills_witness :
  ∃ w',
    exec 0 (signal_segfault SIGSEGV)
      (set_disp {[SIGABRT := mk_sigaction SIG_IGN 0 []]} world0)
      = Terminated SIGABRT w' ∧
    w_disp w' !! SIGABRT = Some sa_clear.
Proof.
  destruct (signal_segfault_kills SIGSEGV 0
              (set_disp {[SIGABRT := mk_sigaction SIG_IGN 0 []]} world0)
              0 eq_refl) as (w' & Hrun & _ & _ & Hd).
  exists w'. split; [exact Hrun|exact Hd].
Defined.

Lemma one_by_one_fatal : fatal_faults (Some one_by_one).
Proof.
  intros fs k how g [= <-] Hg. simpl in Hg.
  destruct (_ !! _) as [g'|] eqn:Hg'; simplify_eq/=.
  apply list_elem_of_lookup_2 in Hg'.
  unfold fatal_signals. rewrite !elem_of_cons in *. tauto.
Qed.

(** X11. No endless crash loop: in a bootstrapped process a fatal signal
    always ends with the process killed by the default action of a fatal
    signal, after the crash handler has been entered at most five times,
    once for each fatal signal at most. This holds whatever [sigemptyset]
    and [sigaction] return inside the handler and whatever fatal signals
    are raised from inside the logging path, one invocation after the
    other: each invocation blocks its signal and uses up its one-shot
    disposition, and nothing installs the handler again. *)
Theorem crash_recursion_bounded (fuel fuel' : nat) (w w1 : world) (f : Z)
    (fault : option faults) :
  exec fuel signal_start w = Returned true w1 →
  f ∈ fatal_signals →
  fatal_faults fault →
  (5 ≤ fuel')%nat →
  ∃ sg w2 evs,
    deliver fault fuel' f w1 = Terminated sg w2 ∧
    sg ∈ fatal_signals ∧
    w_trace w2 = w_trace w1 ++ evs ∧
    (handler_entries evs ≤ 5)%nat.
Proof.
  intros Hrun Hf Hfault Hfuel.
  destruct fuel' as [|n]; [lia|].
  pose proof (crash_delivery fault n f w1 Hfault Hf
                (crash_armed fuel w w1 f Hrun Hf)
                (signal_start_crash_table fuel w w1 Hrun)) as H.
  assert (armed_count (w_disp w1) ≤ S n)%nat as Hn.
  { pose proof (count_armed_le_length (w_disp w1) fatal_signals).
    unfold armed_count. simpl in *. lia. }
  specialize (H Hn).
  destruct (deliver fault (S n) f w1) as [| sg w2 | |]; try done.
  destruct H as (Hsg & evs & Hevs & Hnd & Hin).
  exists sg, w2, evs. split; [done|]. split; [done|]. split; [done|].
  rewrite handler_entries_entered.
  change 5%nat with (length fatal_signals).
  apply submseteq_length, NoDup_submseteq; [done|].
  intros g Hg. by destruct (Hin g Hg).
Qed.

(** SIGSEGV, and each invocation of the handler crashing in its logging
    path on a fatal signal that still has its handler. *)
Lemma crash_recursion_bounded_witness :
  ∃ sg w2 evs,
    exec 0 signal_start world0 = Returned true world1 ∧
    deliver (Some one_by_one) 5 SIGSEGV world1 = Terminated sg w2 ∧
    w_trace w2 = w_trace world1 ++ evs ∧
    (handler_entries evs ≤ 5)%nat.
Proof.
  destruct (crash_recursion_bounded 0 5 world0 world1 SIGSEGV
              (Some one_by_one))
    as (sg & w2 & evs & H2 & _ & Ht & Hn).
  { vm_compute. reflexivity. }
  { unfold fatal_signals. apply list_elem_of_here. }
  { apply one_by_one_fatal. }
  { lia. }
  exists sg, w2, evs. split; [vm_compute; reflexivity|]. by repeat split.
Defined.

(** In that run the handler is entered five times, the bound is
    reached. *)
Example crash_five_entries :
  ∃ w2,
    deliver (Some one_by_one) 5 SIGSEGV world1 = Terminated SIGABRT w2 ∧
    entered (w_trace w2) = [SIGSEGV; SIGFPE; SIGBUS; SIGSYS; SIGABRT].
Proof. eexists. split; vm_compute; reflexivity. Qed.

(** SIGSEGV where the handler's own [sigaction] fails: [abort] enters the
    handler once more, for SIGABRT, and the process is killed. *)
Example crash_second_safety_net :
  ∃ w1 w2,
    exec 0 signal_start
      (set_rets [0; 0; 0; 0; 0; 0; 0; 0; 0; 0; 0; 0; 0; 0; 0; -1] world0)
      = Returned true w1 ∧
    deliver None 2 SIGSEGV w1 = Terminated SIGABRT w2 ∧
    entered (w_trace w2) = [SIGSEGV; SIGABRT].
Proof.
  eexists _, _. split; [run_world; reflexivity|].
  split; vm_compute; reflexivity.
Qed.

(** ** The reload mutex, released and handed over *)

(** X12. The reload mutex is always released: in every state the process
    can reach, the invocation that holds the mutex has not returned, and
    run on its own it releases the mutex within four steps (the call of
    [http_content_refresh], its return, the log line, [mutex_unlock]),
    whatever the other invocations are waiting for, without any of them
    moving. *)
Theorem reload_mutex_released (fuel : nat) (w : world) (sched : list action)
    (s : sys) (i : nat) :
  sys_run fuel sched (sys0 w) = Some s →
  s_owner s = Some i →
  (∀ r, s_threads s !! i ≠ Some (TRun (Ret r))) ∧
  ∃ m s',
    (m ≤ 4)%nat ∧
    sys_run fuel (replicate m (Step i)) s = Some s' ∧
    s_owner s' = None ∧
    ∀ j, j ≠ i → s_threads s' !! j = s_threads s !! j.
Proof.
  intros Hrun Hown.
  pose proof (sys_live_run fuel sched _ _ (sys_live_init w) Hrun) as [Hd Ho].
  destruct (lookup_lt_is_Some_2 (s_threads s) i (Ho i Hown)) as [t Hi].
  pose proof (Hd i t Hi) as Hc.
  rewrite bool_decide_eq_true_2 in Hc by done.
  destruct Hc as (n & Hn & Hc). split.
  - intros r Hr. rewrite Hi in Hr. injection Hr as ->. by destruct n.
  - destruct (owner_releases fuel n s i t Hi Hown Hc)
      as (m & s' & Hm & Hrun' & Hown' & _ & _ & Hoth).
    exists m, s'. split; [lia|]. by repeat split.
Qed.

(** X13. Hand-over: a second invocation that waits at [mutex_lock] while
    a reload is going on gets the mutex as soon as the owner is through:
    at most four steps of the owner, then one of the waiter. *)
Theorem reload_handover (fuel : nat) (w : world) (sched : list action)
    (s : sys) (i j : nat) (m : mutex_id) (k : unit → prog unit) :
  sys_run fuel sched (sys0 w) = Some s →
  s_owner s = Some i →
  s_threads s !! j = Some (TRun (Vis (mutex_lock m) k)) →
  ∃ n s',
    (n ≤ 4)%nat ∧
    sys_run fuel (replicate n (Step i) ++ [Step j]) s = Some s' ∧
    s_owner s' = Some j ∧
    s_threads s' !! j = Some (TRun (k tt)).
Proof.
  intros Hrun Hown Hj.
  pose proof (sys_live_run fuel sched _ _ (sys_live_init w) Hrun) as [Hd Ho].
  destruct (lookup_lt_is_Some_2 (s_threads s) i (Ho i Hown)) as [t Hi].
  pose proof (Hd i t Hi) as Hc.
  rewrite bool_decide_eq_true_2 in Hc by done.
  destruct Hc as (n & Hn & Hc).
  assert (j ≠ i) as Hne.
  { intros ->. rewrite Hi in Hj. injection Hj as ->. by destruct n. }
  destruct (owner_releases fuel n s i t Hi Hown Hc)
    as (n' & s1 & Hn' & Hrun1 & Hown1 & Hlen & _ & Hoth).
  exists n'. eexists. split; [lia|].
  rewrite (sys_run_app fuel _ _ s s1 Hrun1). simpl.
  unfold tstep. rewrite (Hoth j Hne), Hj. simpl. rewrite Hown1.
  split; [reflexivity|]. simpl. split; [done|].
  apply list_lookup_insert_eq. rewrite Hlen. by eapply lookup_lt_Some.
Qed.

(** Two SIGHUP: the first invocation is inside the refresh, the second
    waits; four steps of the first and one of the second later, the second
    holds the mutex. *)
Lemma reload_handover_witness :
  ∃ s n s',
    sys_run 0 [Arrive SIGHUP; Step 0; Step 0; Arrive SIGHUP] (sys0 world1)
      = Some s ∧
    (n ≤ 4)%nat ∧
    sys_run 0 (replicate n (Step 0%nat) ++ [Step 1%nat]) s = Some s' ∧
    s_owner s' = Some 1%nat.
Proof.
  eexists.
  destruct (reload_handover 0 world1
              [Arrive SIGHUP; Step 0; Step 0; Arrive SIGHUP] _ 0 1
              sig_hup_mutex _
              ltac:(vm_compute; reflexivity) eq_refl eq_refl)
    as (n & s' & Hn & Hrun & Hown & _).
  exists n, s'. split; [vm_compute; reflexivity|]. by repeat split.
Defined.

Lemma reload_mutex_released_witness :
  ∃ s m s',
    sys_run 0 [Arrive SIGHUP; Step 0; Step 0; Arrive SIGHUP] (sys0 world1)
      = Some s ∧
    s_owner s = Some 0%nat ∧
    (m ≤ 4)%nat ∧
    sys_run 0 (replicate m (Step 0%nat)) s = Some s' ∧
    s_owner s' = None.
Proof.
  eexists.
  destruct (reload_mutex_released 0 world1
              [Arrive SIGHUP; Step 0; Step 0; Arrive SIGHUP] _ 0
              ltac:(vm_compute; reflexivity) eq_refl)
    as (_ & m & s' & Hm & Hrun & Hown & _).
  exists m, s'. split; [vm_compute; reflexivity|]. by repeat split.
Defined.
